(** * A shallow embedding of the esb_go_app messaging engine

    The development follows the Go sources:
    - [scripting]: the Starlark and Goja runners ([StarlarkRunner.Execute],
      [GojaRunner.Execute]), the [Service.ExecuteScript] dispatch and the
      [HTTPClient] injected into scripts;
    - [rabbitmq]: [republishAsDurable], [forwardOneMessage],
      [collectMessages], [routeMessageLoop], [StartRouter], [GetOneMessage];
    - [storage]: [migrate], [DeleteApplication], [DeleteOrphanedChannels];
    - the supervisor's other commands ([StopRouter], [RestartRouter],
      [StartInboundForwarder], [StartOutboundCollector]), the start-up in
      [main], the legacy router, [RunCollector], the broker topology
      commands, and the admin and API handlers for routes, tokens and
      queue reconciliation.

    The embedded script runtimes and the broker are external collaborators:
    they appear as Section variables (what the runtime does with a script
    text) or as explicit outcomes (a publish that succeeds or fails). *)

From Stdlib Require Import String Ascii List ZArith Bool Lia Permutation.
From stdpp Require Import base gmap sets list strings.
Import ListNotations.
Open Scope string_scope.
Set Warnings "-register-all".

(* ------------------------------------------------------------------------- *)
(** ** Go values ([interface{}]) and Go maps ([map[string]interface{}]) *)

(** The values the host passes around: [nil], [bool], [string], [int]
    and [int64] (by their integer value), [float64] (by its IEEE-754 bit
    pattern: the host only passes floats along, it never computes with
    them) and the two containers; [GOther rt] is a value of any other Go
    type, with the result of its JSON round trip ([None] when
    [json.Marshal] fails). *)
Inductive gval : Type :=
| GNil
| GBool (b : bool)
| GStr (s : string)
| GInt (z : Z)
| GFloat (bits : Z)
| GMap (m : list (string * gval))
| GList (l : list gval)
| GOther (rt : option gval).

(** A Go map as an association list; [gmap_set] is [m[k] = v]. *)
Definition gomap := list (string * gval).

Fixpoint gmap_get (m : gomap) (k : string) : option gval :=
  match m with
  | [] => None
  | (k', v) :: m' => if String.eqb k k' then Some v else gmap_get m' k
  end.

Definition gmap_set (m : gomap) (k : string) (v : gval) : gomap :=
  (k, v) :: List.filter (fun kv => negb (String.eqb (fst kv) k)) m.

(** [m[k].(map[string]interface{})] with the comma-ok form, as a pointer
    that is [nil] when the assertion fails. *)
Definition as_map (o : option gval) : option gomap :=
  match o with
  | Some (GMap m) => Some m
  | _ => None
  end.

(** [TransformedMessage]; the [Destination] field is never set by the
    runners and is left out.  Both runners only build a message with a
    non-nil [Body]. *)
Record TransformedMessage : Type := mkTM {
  tm_Body : gomap;
  tm_Headers : gomap
}.

(** The pair [( *TransformedMessage, error)]: either an error, or a possibly nil
    message. *)
Inductive exec_result : Type :=
| RErr (msg : string)
| ROk (m : option TransformedMessage).

(* ------------------------------------------------------------------------- *)
(** ** Starlark values and the host conversions *)

(** Starlark values: [None], [Bool], [String], [Int] (unbounded), [Float]
    (by its bit pattern), [Dict] (any hashable keys), [List], [Tuple], a
    [starlarkstruct.Struct], and [SOther t] for every other kind (functions,
    sets, bytes, ...), with the name its [Type()] method returns. *)
Inductive svalue : Type :=
| SNone
| SBool (b : bool)
| SString (s : string)
| SInt (z : Z)
| SFloat (bits : Z)
| SDict (items : list (svalue * svalue))
| SList (l : list svalue)
| STuple (l : list svalue)
| SStruct (fields : list (string * svalue))
| SOther (type_name : string).

(** [Value.Type()]. *)
Definition sl_type (v : svalue) : string :=
  match v with
  | SNone => "NoneType"
  | SBool _ => "bool"
  | SString _ => "string"
  | SInt _ => "int"
  | SFloat _ => "float"
  | SDict _ => "dict"
  | SList _ => "list"
  | STuple _ => "tuple"
  | SStruct _ => "struct"
  | SOther t => t
  end.

Definition int64_min : Z := - 2 ^ 63.
Definition int64_max : Z := 2 ^ 63 - 1.

(** [toStarlarkValue]: total on the host values except for an unknown
    type whose JSON round trip fails. *)
Fixpoint toStarlarkValue (v : gval) : option svalue :=
  match v with
  | GNil => Some SNone
  | GBool b => Some (SBool b)
  | GStr s => Some (SString s)
  | GInt z => Some (SInt z)
  | GFloat b => Some (SFloat b)
  | GMap m =>
      let fix conv (m : list (string * gval)) : option (list (svalue * svalue)) :=
        match m with
        | [] => Some []
        | (k, x) :: m' =>
            match toStarlarkValue x, conv m' with
            | Some sx, Some rest => Some ((SString k, sx) :: rest)
            | _, _ => None
            end
        end in
      match conv m with Some it => Some (SDict it) | None => None end
  | GList l =>
      let fix convl (l : list gval) : option (list svalue) :=
        match l with
        | [] => Some []
        | x :: l' =>
            match toStarlarkValue x, convl l' with
            | Some sx, Some rest => Some (sx :: rest)
            | _, _ => None
            end
        end in
      match convl l with Some sl => Some (SList sl) | None => None end
  | GOther None => None
  | GOther (Some g) => toStarlarkValue g
  end.

(** [convertMapToStarlarkDict]. *)
Definition convertMapToStarlarkDict (m : gomap) : option svalue :=
  toStarlarkValue (GMap m).

(** [fromStarlarkValue] together with [convertStarlarkDictToMap]: the
    first fails on an [Int] outside [int64] and on unsupported kinds,
    the second on anything but a [Dict] or a [Struct] and on a non-string
    dict key.  A Starlark tuple is the value type [starlark.Tuple], so the
    [case *starlark.Tuple] branch never matches it: a tuple falls to the
    [default] case and fails like any unsupported kind. *)
Fixpoint fromStarlarkValue (s : svalue) : option gval :=
  match s with
  | SNone => Some GNil
  | SBool b => Some (GBool b)
  | SString str => Some (GStr str)
  | SInt z => if (int64_min <=? z)%Z && (z <=? int64_max)%Z then Some (GInt z) else None
  | SFloat b => Some (GFloat b)
  | SDict items =>
      let fix convd (it : list (svalue * svalue)) (acc : gomap) : option gomap :=
        match it with
        | [] => Some acc
        | (SString k, x) :: it' =>
            match fromStarlarkValue x with
            | Some gx => convd it' (gmap_set acc k gx)
            | None => None
            end
        | _ :: _ => None
        end in
      match convd items [] with Some m => Some (GMap m) | None => None end
  | SList l =>
      let fix convl (l : list svalue) : option (list gval) :=
        match l with
        | [] => Some []
        | x :: l' =>
            match fromStarlarkValue x, convl l' with
            | Some gx, Some rest => Some (gx :: rest)
            | _, _ => None
            end
        end in
      match convl l with Some gl => Some (GList gl) | None => None end
  | SStruct fields =>
      let fix convf (fs : list (string * svalue)) (acc : gomap) : option gomap :=
        match fs with
        | [] => Some acc
        | (f, x) :: fs' =>
            match fromStarlarkValue x with
            | Some gx => convf fs' (gmap_set acc f gx)
            | None => None
            end
        end in
      match convf fields [] with Some m => Some (GMap m) | None => None end
  | STuple _ | SOther _ => None
  end.

Definition convertStarlarkDictToMap (s : svalue) : option gomap :=
  match s with
  | SDict _ | SStruct _ =>
      match fromStarlarkValue s with
      | Some (GMap m) => Some m
      | _ => None
      end
  | _ => None
  end.

(* ------------------------------------------------------------------------- *)
(** ** Goja (JavaScript) values and [ExportTo] *)

(** JavaScript data values.  Functions only appear as script globals
    ([js_global] below). *)
Inductive jsval : Type :=
| JUndef
| JNull
| JBool (b : bool)
| JStr (s : string)
| JNum (z : Z)
| JObj (props : list (string * jsval))
| JArr (elems : list jsval).

(** [Value.Export]: [undefined] and [null] become [nil], an object a
    [map[string]interface{}], an array a [[]interface{}]. *)
Fixpoint js_export (v : jsval) : gval :=
  match v with
  | JUndef | JNull => GNil
  | JBool b => GBool b
  | JStr s => GStr s
  | JNum z => GInt z
  | JObj ps =>
      let fix expo (ps : list (string * jsval)) (acc : gomap) : gomap :=
        match ps with
        | [] => acc
        | (k, x) :: ps' => expo ps' (gmap_set acc k (js_export x))
        end in
      GMap (expo ps [])
  | JArr l =>
      let fix expl (l : list jsval) : list gval :=
        match l with
        | [] => []
        | x :: l' => js_export x :: expl l'
        end in
      GList (expl l)
  end.

Fixpoint digits_aux (fuel n : nat) (acc : string) : string :=
  match fuel with
  | O => acc
  | S f =>
      let acc' := String (Ascii.ascii_of_nat (48 + n mod 10)) acc in
      if Nat.ltb n 10 then acc' else digits_aux f (n / 10) acc'
  end.

Definition string_of_nat (n : nat) : string := digits_aux (S n) n "".

(** [vm.ExportTo(result, &resultObj)] with a [map[string]interface{}]
    target: an object exports its enumerable own properties, an array its
    indices; a primitive cannot be converted and is an error. *)
Definition js_export_to_map (v : jsval) : option gomap :=
  match v with
  | JObj _ =>
      match js_export v with GMap m => Some m | _ => None end
  | JArr l =>
      Some (fst (fold_left
                   (fun (acc : gomap * nat) x =>
                      (gmap_set (fst acc) (string_of_nat (snd acc)) (js_export x), S (snd acc)))
                   l ([], O)))
  | _ => None
  end.

(* ------------------------------------------------------------------------- *)
(** ** Script globals and the two runtimes *)

(** The outcome of calling a script function. *)
Inductive sl_call : Type := SCallErr (e : string) | SCallOk (v : svalue).
Inductive js_call : Type := JCallErr (e : string) | JCallOk (v : jsval).

(** A global of the executed script: a callable with its behaviour on
    the arguments it is given, or any other value. *)
Inductive sl_global : Type :=
| SLFunc (f : list svalue -> sl_call)
| SLData (v : svalue).

Inductive js_global : Type :=
| JSFunc (f : list gval -> js_call)
| JSData (v : jsval).

(** [starlark.ExecFile]: an error, or the script's globals. *)
Inductive sl_exec : Type :=
| SLExecErr (e : string)
| SLGlobals (g : list (string * sl_global)).

(** [goja.Compile] then [vm.RunProgram]. *)
Inductive js_run : Type :=
| JSCompileErr (e : string)
| JSRunErr (e : string)
| JSGlobals (g : list (string * js_global)).

Fixpoint assoc {A} (k : string) (l : list (string * A)) : option A :=
  match l with
  | [] => None
  | (k', a) :: l' => if String.eqb k k' then Some a else assoc k l'
  end.

(** The modules predeclared for a Starlark script, with the attributes of
    each: [log] with [info], [warn], [error]; [http] with [get]; the
    standard [json] module. *)
Definition starlark_predeclared : list (string * list string) :=
  [("log", ["info"; "warn"; "error"]);
   ("http", ["get"]);
   ("json", ["decode"; "encode"; "encode_indent"; "indent"])].

(** The members a Goja script sees on an object injected with [vm.Set]:
    goja wraps a pointer to a Go struct so that its exported fields and
    its methods (promoted ones included) keep their Go names, since no
    field-name mapper is installed. *)
Definition goja_object_members (fields methods : list string) : list string :=
  fields ++ methods.

(** [HTTPClient]: its exported fields and the methods of [*HTTPClient]. *)
Definition HTTPClient_fields : list string := ["Client"; "Logger"].
Definition HTTPClient_methods : list string := ["Get"; "Post"].

(** [Logger]: the embedded [*slog.Logger] field, [Logger.Log], and the
    methods promoted from [*slog.Logger] ([Log] being shadowed). *)
Definition Logger_fields : list string := ["Logger"].
Definition Logger_methods : list string :=
  ["Log"; "Debug"; "DebugContext"; "Enabled"; "Error"; "ErrorContext"; "Handler";
   "Info"; "InfoContext"; "LogAttrs"; "Warn"; "WarnContext"; "With"; "WithGroup"].

(** The objects [GojaRunner.Execute] injects with [vm.Set], with their
    members: [log] is [NewLogger(r.logger)], [http] is [r.httpClient]. *)
Definition goja_injected : list (string * list string) :=
  [("log", goja_object_members Logger_fields Logger_methods);
   ("http", goja_object_members HTTPClient_fields HTTPClient_methods)].

Section Runners.

(** The embedded runtimes, as functions of the objects the host injects
    (by name, with their members) and of the script text; and the text of
    the error [vm.ExportTo] returns for a value it cannot export into a
    [map[string]interface{}]. *)
Variable starlark_exec_file : list (string * list string) -> string -> sl_exec.
Variable goja_run : list (string * list string) -> string -> js_run.
Variable goja_export_error : jsval -> string.

(** [StarlarkRunner.Execute].  The error wrapped ([%w]) into the two
    conversion failures is left out of their text: it names the first
    failing key in Go's unspecified map iteration order. *)
Definition starlark_execute (script : string) (messageBody messageHeaders : gomap)
  : exec_result :=
  match convertMapToStarlarkDict messageBody with
  | None => RErr "failed to convert message body to Starlark dict"
  | Some starlarkBody =>
  match convertMapToStarlarkDict messageHeaders with
  | None => RErr "failed to convert message headers to Starlark dict"
  | Some starlarkHeaders =>
  match starlark_exec_file starlark_predeclared script with
  | SLExecErr e => RErr ("failed to execute Starlark script: " ++ e)
  | SLGlobals globals =>
      let collect_branch :=
        match assoc "collect" globals with
        | Some (SLFunc f) =>
            match f [] with
            | SCallErr e => RErr ("failed to execute collect function: " ++ e)
            | SCallOk SNone => ROk None
            | SCallOk result =>
                match convertStarlarkDictToMap result with
                | None => RErr ("collect result must be a dict, got " ++ sl_type result)
                | Some resultMap =>
                    if Nat.ltb 0 (length resultMap)
                    then ROk (Some (mkTM resultMap []))
                    else ROk None
                end
            end
        | _ => RErr "script must define a 'transform' or 'collect' function"
        end in
      match assoc "transform" globals with
      | Some (SLFunc f) =>
          match f [starlarkBody; starlarkHeaders] with
          | SCallErr e => RErr ("failed to execute transform function: " ++ e)
          | SCallOk SNone => ROk None
          | SCallOk result =>
              match convertStarlarkDictToMap result with
              | None => RErr ("transform result must be a dict, got " ++ sl_type result)
              | Some resultMap =>
                  match as_map (gmap_get resultMap "body") with
                  | None => ROk None
                  | Some transformedBody => ROk (Some (mkTM transformedBody messageHeaders))
                  end
              end
          end
      | _ => collect_branch
      end
  end end end.

(** [GojaRunner.Execute]. *)
Definition goja_execute (script : string) (messageBody messageHeaders : gomap)
  : exec_result :=
  match goja_run goja_injected script with
  | JSCompileErr e => RErr ("failed to compile JavaScript script: " ++ e)
  | JSRunErr e => RErr ("failed to run JavaScript script: " ++ e)
  | JSGlobals globals =>
      let collect_branch :=
        match assoc "collect" globals with
        | Some (JSFunc f) =>
            match f [] with
            | JCallErr e => RErr ("failed to execute collect function: " ++ e)
            | JCallOk JNull | JCallOk JUndef => ROk None
            | JCallOk result =>
                match js_export_to_map result with
                | None => RErr ("failed to export collect result into a message object: " ++
                                goja_export_error result)
                | Some resultObj =>
                    if Nat.ltb 0 (length resultObj)
                    then ROk (Some (mkTM resultObj []))
                    else ROk None
                end
            end
        | _ => RErr "script must define a 'transform' or 'collect' function"
        end in
      match assoc "transform" globals with
      | Some (JSFunc f) =>
          match f [GMap messageBody; GMap messageHeaders] with
          | JCallErr e => RErr ("failed to execute transform function: " ++ e)
          | JCallOk JNull | JCallOk JUndef => ROk None
          | JCallOk result =>
              match js_export_to_map result with
              | None => RErr ("failed to export transform result: " ++ goja_export_error result)
              | Some resultObj =>
                  match as_map (gmap_get resultObj "body") with
                  | None => ROk None
                  | Some transformedBody => ROk (Some (mkTM transformedBody messageHeaders))
                  end
              end
          end
      | _ => collect_branch
      end
  end.

(** [Service.ExecuteScript]. *)
Definition ExecuteScript (engine script : string) (messageBody messageHeaders : gomap)
  : exec_result :=
  if String.eqb engine "javascript" then goja_execute script messageBody messageHeaders
  else if String.eqb engine "starlark" then starlark_execute script messageBody messageHeaders
  else RErr ("unsupported scripting engine: " ++ engine).

End Runners.

(* ------------------------------------------------------------------------- *)
(** ** The HTTP capability ([HTTPClient]) *)

(** [HTTPClient] with the [Timeout] of its [http.Client], in seconds. *)
Record HTTPClient : Type := mkHTTPClient { client_Timeout : Z }.

(** [NewHTTPClient]. *)
Definition NewHTTPClient : HTTPClient := mkHTTPClient 10.

Record HTTPResponse : Type := mkHTTPResponse {
  resp_StatusCode : Z;
  resp_Body : string;
  resp_Headers : list (string * string);
  resp_Error : string
}.

(** The request handed to [Client.Do]. *)
Record http_request : Type := mkReq {
  req_Method : string;
  req_URL : string;
  req_Header : list (string * string);
  req_Body : string;
  req_Timeout : Z
}.

(** What the network does with a request: [Client.Do] fails (connection
    refused, timeout, ...), or a response arrives whose body can or cannot
    be read. *)
Inductive do_result : Type :=
| DoErr (e : string)
| DoReadErr (status : Z) (e : string)
| DoOk (status : Z) (body : string) (headers : list (string * list string)).

Section HTTP.

(** [http.NewRequest] (fails on a malformed URL) and the transport. *)
Variable new_request_err : string -> string -> option string.
Variable transport : http_request -> do_result.

(** [req.Header.Set(k, v)] for each [k, v]. *)
Definition header_set (h : list (string * string)) (k v : string) : list (string * string) :=
  (k, v) :: List.filter (fun kv => negb (String.eqb (fst kv) k)) h.

Definition set_all (h : list (string * string)) (hs : list (string * string)) :=
  fold_left (fun acc kv => header_set acc (fst kv) (snd kv)) hs h.

(** Keep the first value of each response header. *)
Definition first_values (hs : list (string * list string)) : list (string * string) :=
  flat_map (fun kv => match snd kv with v :: _ => [(fst kv, v)] | [] => [] end) hs.

Definition finish (c : HTTPClient) (req : http_request) : HTTPResponse :=
  match transport req with
  | DoErr e => mkHTTPResponse 0 "" [] e
  | DoReadErr st e => mkHTTPResponse st "" [] e
  | DoOk st b hs => mkHTTPResponse st b (first_values hs) ""
  end.

(** [HTTPClient.Get]. *)
Definition http_Get (c : HTTPClient) (url : string) (headers : list (string * string))
  : HTTPResponse :=
  match new_request_err "GET" url with
  | Some e => mkHTTPResponse 0 "" [] e
  | None => finish c (mkReq "GET" url (set_all [] headers) "" (client_Timeout c))
  end.

(** [HTTPClient.Post]: [Content-Type] defaults to [application/json]. *)
Definition http_Post (c : HTTPClient) (url : string) (headers : list (string * string))
  (body : string) : HTTPResponse :=
  match new_request_err "POST" url with
  | Some e => mkHTTPResponse 0 "" [] e
  | None =>
      let h := set_all [] headers in
      let h := match assoc "Content-Type" headers with
               | Some _ => h
               | None => header_set h "Content-Type" "application/json"
               end in
      finish c (mkReq "POST" url h body (client_Timeout c))
  end.

(** The Starlark [http.get] builtin: its result struct. *)
Definition starlark_http_get (c : HTTPClient) (url : string) (headers : list (string * string))
  : svalue :=
  let resp := http_Get c url headers in
  SStruct [("status_code", SInt (resp_StatusCode resp));
           ("body", SString (resp_Body resp));
           ("headers", SDict (map (fun kv => (SString (fst kv), SString (snd kv)))
                                  (resp_Headers resp)));
           ("error", SString (resp_Error resp))].

End HTTP.

(* ------------------------------------------------------------------------- *)
(** ** AMQP deliveries, publishings and the broker's answers *)

Definition Transient : Z := 1.
Definition Persistent : Z := 2.

(** [amqp091.Delivery], reduced to the message properties and body. *)
Record Delivery : Type := mkDelivery {
  d_Headers : gomap;
  d_ContentType : string;
  d_ContentEncoding : string;
  d_DeliveryMode : Z;
  d_Priority : Z;
  d_CorrelationId : string;
  d_ReplyTo : string;
  d_Expiration : string;
  d_MessageId : string;
  d_Timestamp : Z;
  d_Type : string;
  d_UserId : string;
  d_AppId : string;
  d_Body : string
}.

(** [amqp091.Publishing]. *)
Record Publishing : Type := mkPublishing {
  p_Headers : gomap;
  p_ContentType : string;
  p_ContentEncoding : string;
  p_DeliveryMode : Z;
  p_Priority : Z;
  p_CorrelationId : string;
  p_ReplyTo : string;
  p_Expiration : string;
  p_MessageId : string;
  p_Timestamp : Z;
  p_Type : string;
  p_UserId : string;
  p_AppId : string;
  p_Body : string
}.

(** [republishDelivery := d; republishDelivery.Body = finalBody]. *)
Definition with_body (d : Delivery) (b : string) : Delivery :=
  mkDelivery (d_Headers d) (d_ContentType d) (d_ContentEncoding d) (d_DeliveryMode d)
    (d_Priority d) (d_CorrelationId d) (d_ReplyTo d) (d_Expiration d) (d_MessageId d)
    (d_Timestamp d) (d_Type d) (d_UserId d) (d_AppId d) b.

(** The [amqp091.Publishing] literal built from a delivery with the given
    delivery mode, as in [republishAsDurable] and [forwardOneMessage]. *)
Definition publishing_of (msg : Delivery) (mode : Z) : Publishing :=
  mkPublishing (d_Headers msg) (d_ContentType msg) (d_ContentEncoding msg) mode
    (d_Priority msg) (d_CorrelationId msg) (d_ReplyTo msg) (d_Expiration msg)
    (d_MessageId msg) (d_Timestamp msg) (d_Type msg) (d_UserId msg) (d_AppId msg)
    (d_Body msg).

(** The broker-visible actions of a worker, in order. *)
Inductive effect : Type :=
| EPublish (exchange routingKey : string) (p : Publishing) (ok : bool)
| EAck
| ENack (requeue : bool)
| EExec (r : exec_result).

(** The outcome of opening a channel and publishing on it. *)
Inductive pub_result : Type := PubChanErr | PubErr | PubOk.

(** [republishAsDurable]: the effects and whether it returned [nil]. *)
Definition republishAsDurable (broker : string -> Publishing -> pub_result)
  (msg : Delivery) (exchangeName : string) : list effect * bool :=
  let p := publishing_of msg Persistent in
  match broker exchangeName p with
  | PubChanErr => ([], false)
  | PubErr => ([EPublish exchangeName "" p false], false)
  | PubOk => ([EPublish exchangeName "" p true], true)
  end.

(** One delivery of the [collectMessages] loop (outbound collector). *)
Definition collect_one (broker : string -> Publishing -> pub_result)
  (destExchange : string) (d : Delivery) : list effect :=
  let (eff, ok) := republishAsDurable broker d destExchange in
  eff ++ [if ok then EAck else ENack true].

(** The [collectMessages] loop over the deliveries of one consumer
    session of [StartOutboundCollector baseName]. *)
Definition collectMessages (broker : string -> Publishing -> pub_result)
  (baseName : string) (ds : list Delivery) : list effect :=
  flat_map (collect_one broker ("durable_exchange_for_" ++ baseName)) ds.

(* ------------------------------------------------------------------------- *)
(** ** The inbound forwarder ([forwardOneMessage]) *)

(** [ch.Get(queue, false)]: an error, no message, or a message. *)
Inductive get_result : Type :=
| GetErr (e : string)
| GetEmpty
| GetMsg (msg : Delivery).

(** The broker as the forwarder sees it during one call. *)
Record ForwardEnv : Type := mkForwardEnv {
  fe_channel_ok : bool;                         (* conn.Channel() *)
  fe_queue_exists : string -> bool;             (* QueueDeclarePassive *)
  fe_get : string -> get_result;                (* ch.Get *)
  fe_publish : string -> string -> Publishing -> bool  (* ch.Publish *)
}.

(** [forwardOneMessage]: the effects and the returned error. *)
Definition forwardOneMessage (env : ForwardEnv) (sourceQueue destQueue : string)
  : list effect * option string :=
  if negb (fe_channel_ok env) then ([], Some "could not open channel")
  else if negb (fe_queue_exists env destQueue)
  then ([], Some ("destination queue '" ++ destQueue ++ "' does not exist yet"))
  else
    match fe_get env sourceQueue with
    | GetErr e => ([], Some ("failed to get message from '" ++ sourceQueue ++ "': " ++ e))
    | GetEmpty => ([], Some "no message in queue")
    | GetMsg msg =>
        let p := publishing_of msg Transient in
        if fe_publish env "" destQueue p
        then ([EPublish "" destQueue p true; EAck], None)
        else ([EPublish "" destQueue p false; ENack true],
              Some ("failed to publish to '" ++ destQueue ++ "'"))
    end.

(** One iteration of the worker started by [StartInboundForwarder baseName]. *)
Definition inbound_iteration (env : ForwardEnv) (baseName : string)
  : list effect * option string :=
  forwardOneMessage env ("durable_queue_for_" ++ baseName) baseName.

(* ------------------------------------------------------------------------- *)
(** ** The configuration rows read by the route worker *)

Record Channel : Type := mkChannel {
  ch_ID : string;
  ch_ApplicationID : string;
  ch_Name : string;
  ch_Direction : string;
  ch_Destination : string;
  ch_FanoutMode : bool
}.

Record Route : Type := mkRoute {
  r_ID : string;
  r_Name : string;
  r_SourceChannelID : string;
  r_DestinationChannelID : option string;
  r_RouteType : string;
  r_TransformationID : option string;
  r_IntegrationID : option string
}.

Record Transformation : Type := mkTransformation {
  t_ID : string;
  t_Name : string;
  t_Engine : string;
  t_Script : string
}.

(** A store lookup: an I/O error, or a row that may be missing ([nil]). *)
Inductive store_res (A : Type) : Type :=
| SErr (e : string)
| SOk (row : option A).
Arguments SErr {A} e.
Arguments SOk {A} row.

(** The route lookup with its retry loop: at most three attempts, leaving
    the loop at the first one that returns a row. *)
Fixpoint retry_get_route (get : nat -> store_res Route) (i n : nat)
  (last : store_res Route) : store_res Route :=
  match n with
  | O => last
  | S n' =>
      match get i with
      | SOk (Some r) => SOk (Some r)
      | res => retry_get_route get (S i) n' res
      end
  end.

Definition fetch_route (get : nat -> store_res Route) : store_res Route :=
  retry_get_route get 0 3 (SOk None).

(** The collaborators of one iteration of [routeMessageLoop]. *)
Record RouteEnv : Type := mkRouteEnv {
  re_GetRouteByID : nat -> store_res Route;          (* by attempt *)
  re_GetChannelByID : string -> store_res Channel;
  re_GetTransformationByID : string -> store_res Transformation;
  re_unmarshal : string -> option gomap;             (* json.Unmarshal *)
  re_marshal : gomap -> option string;               (* json.Marshal *)
  re_ExecuteScript : string -> string -> gomap -> gomap -> exec_result;
  re_broker : string -> Publishing -> pub_result
}.

(** Copy of the AMQP headers into a fresh map. *)
Definition copy_headers (h : gomap) : gomap :=
  fold_left (fun acc kv => gmap_set acc (fst kv) (snd kv)) h [].

Definition is_empty_opt (o : option string) : bool :=
  match o with None => true | Some s => String.eqb s "" end.

(** One delivery [d] of the [routeMessageLoop] of route [routeID].  The
    runners never return a message with a nil [Body], so the check
    [transformedMsg == nil || transformedMsg.Body == nil] is the [None]
    case. *)
Definition route_one (env : RouteEnv) (routeID : string) (d : Delivery) : list effect :=
  match fetch_route (re_GetRouteByID env) with
  | SErr _ | SOk None => [ENack true]
  | SOk (Some route) =>
      match r_DestinationChannelID route with
      | None => [ENack false]
      | Some destID =>
      if String.eqb destID "" then [ENack false] else
      match re_GetChannelByID env destID with
      | SErr _ | SOk None => [ENack true]
      | SOk (Some destChannel) =>
          let finalDestExchange := "durable_exchange_for_" ++ ch_Destination destChannel in
          let publish (finalBody : string) :=
            let (eff, ok) :=
              republishAsDurable (re_broker env) (with_body d finalBody) finalDestExchange in
            (eff ++ [if ok then EAck else ENack true])%list in
          if String.eqb (r_RouteType route) "transform" then
            if is_empty_opt (r_TransformationID route) then [ENack false] else
            match re_GetTransformationByID env
                    (match r_TransformationID route with Some t => t | None => "" end) with
            | SErr _ | SOk None => [ENack false]
            | SOk (Some transform) =>
                match re_unmarshal env (d_Body d) with
                | None => [ENack false]
                | Some bodyMap =>
                    let headersMap := copy_headers (d_Headers d) in
                    let res := re_ExecuteScript env (t_Engine transform) (t_Script transform)
                                 bodyMap headersMap in
                    EExec res ::
                    match res with
                    | RErr _ => [ENack false]
                    | ROk None => [EAck]
                    | ROk (Some transformedMsg) =>
                        match re_marshal env (tm_Body transformedMsg) with
                        | None => [ENack false]
                        | Some newBodyBytes => publish newBodyBytes
                        end
                    end
                end
            end
          else publish (d_Body d)
      end
      end
  end.

(** The loop over the deliveries of one consumer session. *)
Definition routeMessageLoop (env : RouteEnv) (routeID : string) (ds : list Delivery)
  : list effect :=
  flat_map (route_one env routeID) ds.

(* ------------------------------------------------------------------------- *)
(** ** The worker supervisor ([StartRouter]) *)

(** The registries of the [RabbitMQ] value: [workers] ([map[string]bool])
    and [stoppers] (a cancel handle per key, here the number of the
    goroutine it cancels), with the goroutines launched so far as
    (worker key, source queue). *)
Record Supervisor : Type := mkSupervisor {
  sv_workers : gmap string bool;
  sv_stoppers : gmap string nat;
  sv_launched : list (string * string)
}.

(** What [StartRouter] asks of the store and the broker. *)
Record StartEnv : Type := mkStartEnv {
  se_GetChannelByID : string -> store_res Channel;
  se_setupFanoutSubscription : string -> string -> bool  (* exchange, queue: nil error *)
}.

(** The source queue of the route worker, or [None] when [StartRouter]
    logs an error and returns. *)
Definition router_source_queue (env : StartEnv) (routeID routeName sourceID : string)
  : option string :=
  if String.prefix "collector-output:" sourceID then
    let sourceQueue := "route_fanout_queue_for_" ++ routeName ++ "_" ++ routeID in
    if se_setupFanoutSubscription env sourceID sourceQueue then Some sourceQueue else None
  else
    match se_GetChannelByID env sourceID with
    | SErr _ | SOk None => None
    | SOk (Some sourceChannel) =>
        if ch_FanoutMode sourceChannel then
          let sourceExchange := "durable_exchange_for_" ++ ch_Destination sourceChannel in
          let sourceQueue := "route_fanout_queue_for_" ++ routeName ++ "_" ++ routeID in
          if se_setupFanoutSubscription env sourceExchange sourceQueue
          then Some sourceQueue else None
        else Some ("durable_queue_for_" ++ ch_Destination sourceChannel)
    end.

(** [StartRouter]. *)
Definition StartRouter (env : StartEnv) (s : Supervisor) (routeID routeName sourceID : string)
  : Supervisor :=
  let workerKey := "router-" ++ routeID in
  if default false (sv_workers s !! workerKey) then s
  else
    match router_source_queue env routeID routeName sourceID with
    | None => s
    | Some sourceQueue =>
        mkSupervisor (<[workerKey := true]> (sv_workers s))
          (<[workerKey := length (sv_launched s)]> (sv_stoppers s))
          (sv_launched s ++ [(workerKey, sourceQueue)])
    end.

(* ------------------------------------------------------------------------- *)
(** ** [GetOneMessage] over a queue *)

(** A queue and the messages delivered on the current channel and not
    yet acknowledged. *)
Record QueueState : Type := mkQueueState {
  q_ready : list Delivery;
  q_unacked : list Delivery
}.

(** [basic.get] with [autoAck = false]. *)
Definition amqp_get (q : QueueState) : option Delivery * QueueState :=
  match q_ready q with
  | [] => (None, q)
  | m :: rest => (Some m, mkQueueState rest (q_unacked q ++ [m]))
  end.

(** [msg.Ack(false)]: the oldest unacknowledged message is removed. *)
Definition amqp_ack (q : QueueState) : QueueState :=
  mkQueueState (q_ready q) (tl (q_unacked q)).

(** [ch.Close()]: unacknowledged messages go back to the queue. *)
Definition amqp_close (q : QueueState) : QueueState :=
  mkQueueState (q_unacked q ++ q_ready q) [].

(** The broker's failures during one call: [conn.Channel()] and [ch.Get]. *)
Record GetEnv : Type := mkGetEnv {
  ge_channel_err : option string;
  ge_get_err : option string
}.

(** [GetOneMessage]: [(body, ok, err)] and the queue afterwards. *)
Definition GetOneMessage (env : GetEnv) (queueName : string) (q : QueueState)
  : (string * bool * option string) * QueueState :=
  match ge_channel_err env with
  | Some e => (("", false, Some ("could not open channel: " ++ e)), q)
  | None =>
      match ge_get_err env with
      | Some e =>
          (("", false, Some ("failed to get message from '" ++ queueName ++ "': " ++ e)),
           amqp_close q)
      | None =>
          match amqp_get q with
          | (None, q1) => (("", false, None), amqp_close q1)
          | (Some msg, q1) => ((d_Body msg, true, None), amqp_close (amqp_ack q1))
          end
      end
  end.

(* ------------------------------------------------------------------------- *)
(** ** Schema migration ([Store.migrate]) *)

(** A schema: each table with its columns. *)
Definition schema := list (string * list string).

(** [CREATE TABLE IF NOT EXISTS name (cols)]. *)
Definition create_table_if_not_exists (name : string) (cols : list string) (s : schema)
  : schema :=
  match assoc name s with
  | Some _ => s
  | None => (s ++ [(name, cols)])%list
  end.

Definition applications_columns : list string :=
  ["id"; "name"; "client_secret"; "id_token"; "created_at"; "updated_at"].
Definition channels_columns : list string :=
  ["id"; "application_id"; "name"; "direction"; "destination"; "created_at"].
Definition routes_columns : list string :=
  ["id"; "source_channel_id"; "destination_channel_id"; "created_at"].

(** [Store.migrate] as it stands in [storage/storage.go]. *)
Definition migrate (s : schema) : schema :=
  create_table_if_not_exists "routes" routes_columns
    (create_table_if_not_exists "channels" channels_columns
       (create_table_if_not_exists "applications" applications_columns s)).

Definition has_column (s : schema) (table col : string) : bool :=
  match assoc table s with
  | Some cols => existsb (String.eqb col) cols
  | None => false
  end.

(** An [INSERT INTO table (cols)] only succeeds when every column exists. *)
Definition insert_columns_ok (s : schema) (table : string) (cols : list string) : bool :=
  forallb (has_column s table) cols.

(** The column lists of [CreateChannel] (storage/channel.go) and
    [CreateRoute] (storage/route.go). *)
Definition CreateChannel_columns : list string :=
  ["id"; "application_id"; "name"; "direction"; "destination"; "fanout_mode"].
Definition CreateRoute_columns : list string :=
  ["id"; "name"; "source_channel_id"; "destination_channel_id"; "route_type";
   "transformation_id"; "integration_id"].

(* ------------------------------------------------------------------------- *)
(** ** Concrete inputs *)

(** A delivery as the broker hands it to a worker. *)
Definition sample_delivery : Delivery :=
  mkDelivery [("x-source", GStr "shop")] "application/json" "utf-8" Persistent 5
    "corr-1" "reply-q" "60000" "msg-1" 1700000000 "order" "guest" "shop-app"
    "{total: 5}".

Definition sample_dest_channel : Channel := mkChannel "c2" "a2" "sink" "inbound" "dst" false.

Definition sample_route (dest : option string) (routeType : string) : Route :=
  mkRoute "r1" "orders" "c1" dest routeType (Some "t1") None.

Definition sample_transformation (engine : string) : Transformation :=
  mkTransformation "t1" "filter" engine "transform script".

(** Runtimes whose [transform] (or [collect]) returns a fixed value. *)
Definition starlark_transform_returning (v : svalue) : list (string * list string) -> string -> sl_exec :=
  fun _ _ => SLGlobals [("transform", SLFunc (fun _ => SCallOk v))].
Definition starlark_collect_returning (v : svalue) : list (string * list string) -> string -> sl_exec :=
  fun _ _ => SLGlobals [("collect", SLFunc (fun _ => SCallOk v))].
Definition goja_transform_returning (v : jsval) : list (string * list string) -> string -> js_run :=
  fun _ _ => JSGlobals [("transform", JSFunc (fun _ => JCallOk v))].
Definition goja_collect_returning (v : jsval) : list (string * list string) -> string -> js_run :=
  fun _ _ => JSGlobals [("collect", JSFunc (fun _ => JCallOk v))].

(** An [ExportTo] error text for the samples. *)
Definition sample_export_error : jsval -> string := fun _ => "could not convert value".

(** A store holding [route], the channel [c2] and the transformation [t1],
    a broker that accepts every publish, and the given script service. *)
Definition sample_env (route : Route) (engine : string)
  (exec : string -> string -> gomap -> gomap -> exec_result) : RouteEnv :=
  mkRouteEnv (fun _ => SOk (Some route))
    (fun id => if String.eqb id "c2" then SOk (Some sample_dest_channel) else SOk None)
    (fun id => if String.eqb id "t1" then SOk (Some (sample_transformation engine)) else SOk None)
    (fun _ => Some [("total", GInt 5)])
    (fun _ => Some "{}")
    exec
    (fun _ _ => PubOk).

Definition empty_supervisor : Supervisor := mkSupervisor empty empty [].

(** A store without the source channel. *)
Definition env_missing_source : StartEnv :=
  mkStartEnv (fun _ => SOk None) (fun _ _ => true).

Definition env_with_source : StartEnv :=
  mkStartEnv (fun id => if String.eqb id "c1" then SOk (Some (mkChannel "c1" "a1" "src" "outbound" "src" false)) else SOk None)
    (fun _ _ => true).

(** A transform route whose Starlark script filters every message. *)
Definition filter_env : RouteEnv :=
  sample_env (sample_route (Some "c2") "transform") "starlark"
    (ExecuteScript (starlark_transform_returning SNone) (goja_transform_returning JNull)
                  sample_export_error).

(** A broker holding one message in [durable_queue_for_q1], whose
    publishes succeed or fail as given. *)
Definition forward_env_publish (ok : bool) : ForwardEnv :=
  mkForwardEnv true (fun _ => true)
    (fun q => if String.eqb q "durable_queue_for_q1" then GetMsg sample_delivery else GetEmpty)
    (fun _ _ _ => ok).

(* ------------------------------------------------------------------------- *)
(** ** The worker supervisor: stopping, restarting, the other workers *)

Definition StopRouter (s : Supervisor) (routeID : string) : Supervisor * option nat :=
  let workerKey := "router-" ++ routeID in
  match sv_stoppers s !! workerKey with
  | Some g =>
      (mkSupervisor (delete workerKey (sv_workers s)) (delete workerKey (sv_stoppers s))
         (sv_launched s), Some g)
  | None => (s, None)
  end.

Definition RestartRouter (env : StartEnv) (s : Supervisor) (routeID routeName sourceID : string)
  : Supervisor * option nat :=
  let (s1, cancelled) := StopRouter s routeID in
  (StartRouter env s1 routeID routeName sourceID, cancelled).

Definition StartInboundForwarder (s : Supervisor) (baseName : string) : Supervisor :=
  let workerKey := "inbound-" ++ baseName in
  if default false (sv_workers s !! workerKey) then s
  else mkSupervisor (<[workerKey := true]> (sv_workers s)) (sv_stoppers s)
         (sv_launched s ++ [(workerKey, ("durable_queue_for_" ++ baseName)%string)]).

Definition StartOutboundCollector (s : Supervisor) (baseName : string) : Supervisor :=
  let workerKey := "outbound-" ++ baseName in
  if default false (sv_workers s !! workerKey) then s
  else mkSupervisor (<[workerKey := true]> (sv_workers s)) (sv_stoppers s)
         (sv_launched s ++ [(workerKey, baseName)]).

Inductive sv_op : Type :=
| OpStartRouter (env : StartEnv) (routeID routeName sourceID : string)
| OpStopRouter (routeID : string)
| OpRestartRouter (env : StartEnv) (routeID routeName sourceID : string)
| OpStartInbound (baseName : string)
| OpStartOutbound (baseName : string).

Definition fleet : Type := (Supervisor * list nat)%type.

Definition opt_to_list {A} (o : option A) : list A :=
  match o with Some a => [a] | None => [] end.

Definition sv_step (st : fleet) (op : sv_op) : fleet :=
  let (s, cancelled) := st in
  match op with
  | OpStartRouter env id name src => (StartRouter env s id name src, cancelled)
  | OpStopRouter id =>
      let (s', c) := StopRouter s id in (s', (opt_to_list c ++ cancelled)%list)
  | OpRestartRouter env id name src =>
      let (s', c) := RestartRouter env s id name src in (s', (opt_to_list c ++ cancelled)%list)
  | OpStartInbound b => (StartInboundForwarder s b, cancelled)
  | OpStartOutbound b => (StartOutboundCollector s b, cancelled)
  end.


Fixpoint live_from (launched : list (string * string)) (n : nat) (cancelled : list nat)
  (key : string) : list nat :=
  match launched with
  | [] => []
  | (k, _) :: rest =>
      ((if String.eqb k key && negb (existsb (Nat.eqb n) cancelled) then [n] else [])
         ++ live_from rest (S n) cancelled key)%list
  end.

Definition live_workers (st : fleet) (key : string) : list nat :=
  live_from (sv_launched (fst st)) 0 (snd st) key.

(* ---------------- proofs ---------------- *)

Definition live (st : fleet) (n : nat) (k : string) : Prop :=
  (exists q, nth_error (sv_launched (fst st)) n = Some (k, q)) /\ ~ In n (snd st).

Record sv_inv (st : fleet) : Prop := {
  inv_true : forall k b, sv_workers (fst st) !! k = Some b -> b = true;
  inv_reg : forall k, sv_workers (fst st) !! k = Some true <-> exists n, live st n k;
  inv_uniq : forall n m k, live st n k -> live st m k -> n = m;
  inv_stop : forall k g, sv_stoppers (fst st) !! k = Some g -> live st g k;
  inv_canc : forall c, In c (snd st) -> c < length (sv_launched (fst st));
  inv_rstop : forall r, sv_workers (fst st) !! ("router-" ++ r) = Some true ->
    is_Some (sv_stoppers (fst st) !! ("router-" ++ r))
}.

(* ------------------------------------------------------------------------- *)
(** ** The legacy router and the Starlark result conversion *)

(** [routeMessages] of the legacy two-queue router: one consumer session. *)
Definition routeMessages (broker : string -> Publishing -> pub_result)
  (destExchange : string) (ds : list Delivery) : list effect :=
  flat_map (collect_one broker destExchange) ds.

Definition is_settle (e : effect) : bool :=
  match e with EAck | ENack _ => true | _ => false end.

Definition is_ack (e : effect) : bool :=
  match e with EAck => true | _ => false end.

Definition is_requeue (e : effect) : bool :=
  match e with ENack true => true | _ => false end.

(** The shape of the effects on one delivery: work that settles nothing,
    then exactly one settlement; an ack follows a successful publish or a
    filtering script run, and a publish decides the settlement. *)
Definition settles (l : list effect) : Prop :=
  exists pre s,
    l = (pre ++ [s])%list /\ is_settle s = true /\ forallb (fun e => negb (is_settle e)) pre = true /\
    (s = EAck -> (exists ex rk p, In (EPublish ex rk p true) pre) \/ In (EExec (ROk None)) pre) /\
    (forall ex rk p ok, In (EPublish ex rk p ok) pre -> s = if ok then EAck else ENack true).

Definition published_ok (broker : string -> Publishing -> pub_result) (ex : string) (d : Delivery) : bool :=
  match broker ex (publishing_of d Persistent) with PubOk => true | _ => false end.

(** The loops of [fromStarlarkValue] over dict items, list elements and
    struct fields. *)
Fixpoint sl_dict_to_map (it : list (svalue * svalue)) (acc : gomap) : option gomap :=
  match it with
  | [] => Some acc
  | (SString k, x) :: it' =>
      match fromStarlarkValue x with
      | Some gx => sl_dict_to_map it' (gmap_set acc k gx)
      | None => None
      end
  | _ :: _ => None
  end.

Fixpoint sl_list_to_list (l : list svalue) : option (list gval) :=
  match l with
  | [] => Some []
  | x :: l' =>
      match fromStarlarkValue x, sl_list_to_list l' with
      | Some gx, Some rest => Some (gx :: rest)
      | _, _ => None
      end
  end.

Fixpoint sl_struct_to_map (fs : list (string * svalue)) (acc : gomap) : option gomap :=
  match fs with
  | [] => Some acc
  | (f, x) :: fs' =>
      match fromStarlarkValue x with
      | Some gx => sl_struct_to_map fs' (gmap_set acc f gx)
      | None => None
      end
  end.

(** A Starlark value holding, at any depth, something the host cannot
    convert back: an [Int] outside [int64], a tuple, a value of an
    unsupported kind, or a dict key that is not a string. *)
Inductive sl_bad : svalue -> Prop :=
| bad_int z : ~ (int64_min <= z <= int64_max)%Z -> sl_bad (SInt z)
| bad_tuple l : sl_bad (STuple l)
| bad_other t : sl_bad (SOther t)
| bad_dict_key items k v : In (k, v) items -> (forall s, k <> SString s) -> sl_bad (SDict items)
| bad_dict_val items k v : In (k, v) items -> sl_bad v -> sl_bad (SDict items)
| bad_list l v : In v l -> sl_bad v -> sl_bad (SList l)
| bad_struct fs f v : In (f, v) fs -> sl_bad v -> sl_bad (SStruct fs).

(* ------------------------------------------------------------------------- *)
(** ** Well-formed Go values and their equivalence up to entry order *)

Section gval_ind_nested.
Variable P : gval -> Prop.
Hypothesis Hnil : P GNil.
Hypothesis Hbool : forall b, P (GBool b).
Hypothesis Hstr : forall s, P (GStr s).
Hypothesis Hint : forall z, P (GInt z).
Hypothesis Hfloat : forall b, P (GFloat b).
Hypothesis Hmap : forall m, Forall (fun kv => P (snd kv)) m -> P (GMap m).
Hypothesis Hlist : forall l, Forall P l -> P (GList l).
Hypothesis Hother : forall o, P (GOther o).

Fixpoint gval_ind_nested (v : gval) : P v :=
  match v with
  | GNil => Hnil
  | GBool b => Hbool b
  | GStr s => Hstr s
  | GInt z => Hint z
  | GFloat b => Hfloat b
  | GMap m =>
      Hmap m ((fix G (m : list (string * gval)) : Forall (fun kv => P (snd kv)) m :=
                 match m with
                 | [] => @List.Forall_nil _ _
                 | kv :: m' => @List.Forall_cons _ _ _ _ (gval_ind_nested (snd kv)) (G m')
                 end) m)
  | GList l =>
      Hlist l ((fix G (l : list gval) : Forall P l :=
                  match l with
                  | [] => @List.Forall_nil _ _
                  | x :: l' => @List.Forall_cons _ _ _ _ (gval_ind_nested x) (G l')
                  end) l)
  | GOther o => Hother o
  end.
End gval_ind_nested.

(** The Go values the host can hand to Starlark and get back: [nil],
    booleans, strings, integers of [int64], [float64] numbers, maps with
    distinct keys and lists of such values, and no value of another type.
    These are all the values [json.Unmarshal] produces. *)
Inductive gwf : gval -> Prop :=
| wf_nil : gwf GNil
| wf_bool b : gwf (GBool b)
| wf_str s : gwf (GStr s)
| wf_int z : (int64_min <= z <= int64_max)%Z -> gwf (GInt z)
| wf_float b : gwf (GFloat b)
| wf_map m : NoDup (map fst m) -> Forall (fun kv => gwf (snd kv)) m -> gwf (GMap m)
| wf_list l : Forall gwf l -> gwf (GList l).

(** Equality of Go values up to the iteration order of maps. *)
Inductive gequiv : gval -> gval -> Prop :=
| geq_nil : gequiv GNil GNil
| geq_bool b : gequiv (GBool b) (GBool b)
| geq_str s : gequiv (GStr s) (GStr s)
| geq_int z : gequiv (GInt z) (GInt z)
| geq_float b : gequiv (GFloat b) (GFloat b)
| geq_map m1 m2 :
    (forall k, option_Forall2 gequiv (gmap_get m1 k) (gmap_get m2 k)) -> gequiv (GMap m1) (GMap m2)
| geq_list l1 l2 : Forall2 gequiv l1 l2 -> gequiv (GList l1) (GList l2).

(** The loops of [toStarlarkValue] over map entries and list elements. *)
Fixpoint g_map_to_items (m : list (string * gval)) : option (list (svalue * svalue)) :=
  match m with
  | [] => Some []
  | (k, x) :: m' =>
      match toStarlarkValue x, g_map_to_items m' with
      | Some sx, Some rest => Some ((SString k, sx) :: rest)
      | _, _ => None
      end
  end.

Fixpoint g_list_to_list (l : list gval) : option (list svalue) :=
  match l with
  | [] => Some []
  | x :: l' =>
      match toStarlarkValue x, g_list_to_list l' with
      | Some sx, Some rest => Some (sx :: rest)
      | _, _ => None
      end
  end.

Definition round_trips (v : gval) : Prop :=
  gwf v -> exists s v', toStarlarkValue v = Some s /\ fromStarlarkValue s = Some v' /\ gequiv v' v.

(* ------------------------------------------------------------------------- *)
(** ** The inbound forwarder's reporting and the legacy [StartRouter] *)

(** [strings.Contains]. *)
Fixpoint contains (s substr : string) : bool :=
  String.prefix substr s ||
  match s with
  | EmptyString => false
  | String _ s' => contains s' substr
  end.

(** Whether the inbound worker reports an iteration's error (logs it,
    counts it and backs off for five seconds). *)
Definition inbound_reports (err : option string) : bool :=
  match err with
  | None => false
  | Some e => negb (String.eqb e "no message in queue") && negb (contains e "does not exist yet")
  end.

(** The legacy [StartRouter(sourceBaseName, destBaseName)]. *)
Definition LegacyStartRouter (s : Supervisor) (sourceBaseName destBaseName : string) : Supervisor :=
  let workerKey := "router-" ++ sourceBaseName ++ "-to-" ++ destBaseName in
  if default false (sv_workers s !! workerKey) then s
  else mkSupervisor (<[workerKey := true]> (sv_workers s)) (sv_stoppers s)
         (sv_launched s ++ [(workerKey, ("durable_queue_for_" ++ sourceBaseName)%string)]).

(* ------------------------------------------------------------------------- *)
(** ** Collectors ([Service.RunCollector], [Publish]) *)

(** [storage.Collector]. *)
Record Collector : Type := mkCollector {
  col_ID : string;
  col_Name : string;
  col_Schedule : string;
  col_Engine : string;
  col_Script : string;
  col_IntegrationID : option string
}.

(** The [amqp091.Publishing] literal of [Publish]: a JSON text message,
    persistent, stamped with the current time; every other field zero. *)
Definition text_publishing (body : string) (now : Z) : Publishing :=
  mkPublishing [] "application/json" "" Persistent 0 "" "" "" "" now "" "" "" body.

(** The broker-visible actions of [RunCollector]. *)
Inductive col_effect : Type :=
| CExec (r : exec_result)
| CEnsure (exchange : string) (ok : bool)
| CPublish (exchange routingKey : string) (p : Publishing) (ok : bool).

Record CollectorEnv : Type := mkCollectorEnv {
  ce_GetCollectorByID : string -> store_res Collector;
  ce_ExecuteScript : string -> string -> gomap -> gomap -> exec_result;
  ce_marshal : gomap -> option string;                   (* json.Marshal *)
  ce_ensure : string -> bool;                            (* EnsureExchange: nil error *)
  ce_publish : string -> string -> Publishing -> pub_result;
  ce_now : Z
}.

(** [Publish(exchangeName, routingKey, body)]: effects and nil error. *)
Definition Publish (env : CollectorEnv) (exchangeName routingKey body : string)
  : list col_effect * bool :=
  let p := text_publishing body (ce_now env) in
  match ce_publish env exchangeName routingKey p with
  | PubChanErr => ([], false)
  | PubErr => ([CPublish exchangeName routingKey p false], false)
  | PubOk => ([CPublish exchangeName routingKey p true], true)
  end.

(** [Service.RunCollector]: the script runs with nil body and headers. *)
Definition RunCollector (env : CollectorEnv) (collectorID : string) : list col_effect :=
  match ce_GetCollectorByID env collectorID with
  | SErr _ | SOk None => []
  | SOk (Some collector) =>
      let res := ce_ExecuteScript env (col_Engine collector) (col_Script collector) [] [] in
      CExec res ::
      match res with
      | RErr _ | ROk None => []
      | ROk (Some transformedMsg) =>
          match ce_marshal env (tm_Body transformedMsg) with
          | None => []
          | Some bodyBytes =>
              let exchangeName := "collector-output:" ++ col_ID collector in
              if ce_ensure env exchangeName
              then CEnsure exchangeName true :: fst (Publish env exchangeName "" bodyBytes)
              else [CEnsure exchangeName false]
          end
      end
  end.

Definition is_col_publish (e : col_effect) : bool :=
  match e with CPublish _ _ _ _ => true | _ => false end.

Definition sample_collector_env : CollectorEnv :=
  mkCollectorEnv (fun _ => SOk (Some (mkCollector "k1" "rates" "@every 1m" "starlark" "s" None)))
    (fun _ _ _ _ => ROk (Some (mkTM [("usd", GInt 90)] []))) (fun _ => Some "{}")
    (fun _ => true) (fun _ _ _ => PubOk) 0.

(* ------------------------------------------------------------------------- *)
(** ** Start-up ([main]: workers and routers) *)

Inductive list_res (A : Type) : Type :=
| LErr (e : string)
| LOk (rows : list A).

Arguments LErr {A} e.

Arguments LOk {A} rows.

Record Application : Type := mkApplication {
  app_ID : string;
  app_Name : string;
  app_ClientSecret : string;
  app_IDToken : string
}.

Definition boot_channel (topo : string -> bool) (s : Supervisor) (ch : Channel) : Supervisor :=
  if topo (ch_Destination ch) then
    if String.eqb (ch_Direction ch) "inbound" then StartInboundForwarder s (ch_Destination ch)
    else if String.eqb (ch_Direction ch) "outbound" then StartOutboundCollector s (ch_Destination ch)
    else s
  else s.

Definition boot_app (channels_of : string -> list_res Channel) (topo : string -> bool)
  (s : Supervisor) (app : Application) : Supervisor :=
  match channels_of (app_ID app) with
  | LErr _ => s
  | LOk channels => fold_left (boot_channel topo) channels s
  end.

Definition boot_route (env : StartEnv) (s : Supervisor) (route : Route) : Supervisor :=
  if String.eqb (r_SourceChannelID route) "" then s
  else StartRouter env s (r_ID route) (r_Name route) (r_SourceChannelID route).

Definition Boot (apps : list_res Application) (channels_of : string -> list_res Channel)
  (topo : string -> bool) (env : StartEnv) (routes : list_res Route) : Supervisor :=
  let s := match apps with
           | LErr _ => empty_supervisor
           | LOk apps => fold_left (boot_app channels_of topo) apps empty_supervisor
           end in
  match routes with
  | LErr _ => s
  | LOk routes => fold_left (boot_route env) routes s
  end.

(* ------------------------------------------------------------------------- *)
(** ** Deleting applications and orphaned channels *)

Record DB : Type := mkDB {
  db_applications : list Application;
  db_channels : list Channel
}.

Definition app_exists (db : DB) (appID : string) : bool :=
  existsb (fun a => String.eqb (app_ID a) appID) (db_applications db).

Definition DeleteOrphanedChannels (exec_err affected_err : option string) (db : DB)
  : DB * (nat * option string) :=
  match exec_err with
  | Some e => (db, (0, Some ("failed to delete orphaned channels: " ++ e)))
  | None =>
      let kept := List.filter (fun ch => app_exists db (ch_ApplicationID ch)) (db_channels db) in
      let db' := mkDB (db_applications db) kept in
      match affected_err with
      | Some e => (db', (0, Some ("failed to get affected rows: " ++ e)))
      | None => (db', (length (db_channels db) - length kept, None))
      end
  end%nat.

Definition DeleteApplication (begin_err exec1_err exec2_err commit_err : option string)
  (db : DB) (id : string) : DB * option string :=
  match begin_err with
  | Some e => (db, Some ("failed to begin transaction: " ++ e))
  | None =>
      match exec1_err with
      | Some e => (db, Some ("failed to delete associated channels: " ++ e))
      | None =>
          let channels := List.filter (fun ch => negb (String.eqb (ch_ApplicationID ch) id))
                            (db_channels db) in
          match exec2_err with
          | Some e => (db, Some ("failed to delete application: " ++ e))
          | None =>
              let apps := List.filter (fun a => negb (String.eqb (app_ID a) id))
                            (db_applications db) in
              match commit_err with
              | Some e => (db, Some e)
              | None => (mkDB apps channels, None)
              end
          end
      end
  end.

Definition no_orphans (db : DB) : Prop :=
  forall ch, In ch (db_channels db) -> app_exists db (ch_ApplicationID ch) = true.

(* ------------------------------------------------------------------------- *)
(** ** The route forms of the admin UI *)

Record RouteForm : Type := mkRouteForm {
  f_name : string;
  f_source_channel_id : string;
  f_destination_channel_id : string;
  f_route_type : string;
  f_transformation_id : string;
  f_integration_id : string
}.

Definition handleCreateRoute (parse_ok : bool) (form : RouteForm) (newID : string)
  (CreateRoute : Route -> bool) (env : StartEnv) (s : Supervisor)
  : Z * option Route * Supervisor :=
  if negb parse_ok then (400%Z, None, s) else
  let routeName := f_name form in
  let sourceID := f_source_channel_id form in
  let destChannelIDValue := f_destination_channel_id form in
  let routeType := f_route_type form in
  if String.eqb routeName "" then (400%Z, None, s) else
  if String.eqb sourceID "" || String.eqb destChannelIDValue "" then (400%Z, None, s) else
  match (if String.eqb routeType "transform" then
           if String.eqb (f_transformation_id form) "" then None
           else Some (Some (f_transformation_id form))
         else Some None) with
  | None => (400%Z, None, s)
  | Some transformationID =>
      let integrationID :=
        if String.eqb (f_integration_id form) "" then None else Some (f_integration_id form) in
      let route := mkRoute newID routeName sourceID (Some destChannelIDValue) routeType
                     transformationID integrationID in
      if CreateRoute route
      then (303%Z, Some route, StartRouter env s (r_ID route) (r_Name route) sourceID)
      else (500%Z, None, s)
  end.

Definition handleEditRoute (parse_ok : bool) (GetRouteByID : store_res Route) (form : RouteForm)
  (UpdateRoute : Route -> bool) (env : StartEnv) (s : Supervisor)
  : Z * option Route * (Supervisor * option nat) :=
  if negb parse_ok then (400%Z, None, (s, None)) else
  match GetRouteByID with
  | SErr _ | SOk None => (404%Z, None, (s, None))
  | SOk (Some route) =>
      let routeName := f_name form in
      let sourceID := f_source_channel_id form in
      let destChannelIDValue := f_destination_channel_id form in
      let routeType := f_route_type form in
      if String.eqb routeName "" || String.eqb sourceID "" || String.eqb destChannelIDValue ""
      then (400%Z, None, (s, None)) else
      match (if String.eqb routeType "transform" then
               if String.eqb (f_transformation_id form) "" then None
               else Some (Some (f_transformation_id form))
             else Some None) with
      | None => (400%Z, None, (s, None))
      | Some transformationID =>
          let integrationID :=
            if String.eqb (f_integration_id form) "" then None else Some (f_integration_id form) in
          let route' := mkRoute (r_ID route) routeName sourceID (Some destChannelIDValue)
                          routeType transformationID integrationID in
          if UpdateRoute route'
          then (303%Z, Some route', RestartRouter env s (r_ID route') (r_Name route') sourceID)
          else (500%Z, None, (s, None))
      end
  end.

(** The checks of [route_one] on the configuration of a route, and of
    [Boot] on its source. *)
Definition route_config_ok (r : Route) : Prop :=
  r_Name r <> "" /\ r_SourceChannelID r <> "" /\
  is_empty_opt (r_DestinationChannelID r) = false /\
  (r_RouteType r = "transform" -> is_empty_opt (r_TransformationID r) = false).

Definition sample_route_form : RouteForm := mkRouteForm "orders" "c1" "c2" "transform" "t1" "".

(* ------------------------------------------------------------------------- *)
(** ** API authentication ([handleGetToken], [getAppFromRequest]) *)

Definition lower_ascii (c : ascii) : ascii :=
  let n := nat_of_ascii c in
  if (65 <=? n)%nat && (n <=? 90)%nat then ascii_of_nat (n + 32) else c.

Fixpoint to_lower (s : string) : string :=
  match s with
  | EmptyString => EmptyString
  | String c r => String (lower_ascii c) (to_lower r)
  end.

Fixpoint cut_at (sep : ascii) (s : string) : option (string * string) :=
  match s with
  | EmptyString => None
  | String c r =>
      if Ascii.eqb c sep then Some (EmptyString, r)
      else match cut_at sep r with
           | Some (a, b) => Some (String c a, b)
           | None => None
           end
  end.

Definition BasicAuth (base64_decode : string -> option string) (auth : string)
  : option (string * string) :=
  if String.eqb auth "" then None else
  if (String.length auth <? 6)%nat || negb (String.eqb (to_lower (substring 0 6 auth)) "basic ")
  then None
  else match base64_decode (substring 6 (String.length auth - 6) auth) with
       | None => None
       | Some cs => cut_at ":" cs
       end.

Record ApiEnv : Type := mkApiEnv {
  ae_GetApplicationByID : string -> store_res Application;
  ae_GetApplicationByIDToken : string -> store_res Application;
  ae_base64_decode : string -> option string
}.

Definition getAppFromRequest (env : ApiEnv) (authHeader : string) : store_res Application :=
  if String.eqb authHeader "" then SOk None else
  match cut_at " " authHeader with
  | None => SOk None
  | Some (part0, part1) =>
      let authScheme := to_lower part0 in
      if String.eqb authScheme "bearer" then
        match ae_GetApplicationByIDToken env part1 with
        | SErr e => SErr e
        | SOk None => SOk None
        | SOk (Some app) => SOk (Some app)
        end
      else if String.eqb authScheme "basic" then
        match BasicAuth (ae_base64_decode env) authHeader with
        | None => SOk None
        | Some (reqClientID, reqClientSecret) =>
            match ae_GetApplicationByID env reqClientID with
            | SErr e => SErr e
            | SOk None => SOk None
            | SOk (Some app) =>
                if String.eqb (app_ClientSecret app) reqClientSecret
                then SOk (Some app) else SOk None
            end
        end
      else SOk None
  end.

Inductive token_response : Type :=
| TokenError (status : Z) (msg : string)
| TokenIssued (resp : list (string * string)).

Definition handleGetToken (env : ApiEnv) (method authHeader : string) : token_response :=
  if negb (String.eqb method "POST") then TokenError 405 "Method not allowed" else
  match BasicAuth (ae_base64_decode env) authHeader with
  | None => TokenError 401 "Authorization required"
  | Some (reqClientID, reqClientSecret) =>
      match ae_GetApplicationByID env reqClientID with
      | SErr _ => TokenError 500 "Internal server error"
      | SOk None => TokenError 401 "Invalid credentials"
      | SOk (Some app) =>
          if negb (String.eqb (app_ClientSecret app) reqClientSecret)
          then TokenError 401 "Invalid credentials"
          else TokenIssued [("id_token", app_IDToken app); ("token_type", "Bearer");
                            ("access_token", "Not implemented")]
      end
  end.

(** The store answering from the rows [apps] of the applications table. *)
Definition store_of (apps : list Application) (b64 : string -> option string) : ApiEnv :=
  mkApiEnv (fun id => SOk (List.find (fun a => String.eqb (app_ID a) id) apps))
           (fun t => SOk (List.find (fun a => String.eqb (app_IDToken a) t) apps))
           b64.

Definition sample_apps : list Application :=
  [mkApplication "a1" "shop" "s1" "tok1"; mkApplication "a2" "crm" "s2" "tok2"].

Definition sample_b64 (s : string) : option string :=
  if String.eqb s "YTE6czE=" then Some "a1:s1" else None.

(* ------------------------------------------------------------------------- *)
(** ** Queue reconciliation ([handleQueueReconciliation]) *)

Record QueueInfo : Type := mkQueueInfo {
  qi_Name : string;
  qi_Vhost : string;
  qi_Durable : bool
}.

Record QueueReconResult : Type := mkQueueReconResult {
  DBQueues : list string;
  RabbitMQQueues : list string;
  OrphanedQueues : list string;
  MissingQueues : list string;
  MatchingQueues : list string
}.

Inductive recon_page : Type :=
| ReconError (status : Z) (msg : string)
| ReconOk (result : QueueReconResult).

Definition db_queue_step (st : gmap string bool * list string) (ch : Channel)
  : gmap string bool * list string :=
  let '(dbQueueMap, dbQueueList) := st in
  let qName := "durable_queue_for_" ++ ch_Destination ch in
  if default false (dbQueueMap !! qName) then (dbQueueMap, dbQueueList)
  else (<[qName := true]> dbQueueMap, (dbQueueList ++ [qName])%list).

Definition rabbit_queue_step (st : gmap string bool * list string) (q : QueueInfo)
  : gmap string bool * list string :=
  let '(rabbitQueueMap, rabbitQueueList) := st in
  if qi_Durable q && String.prefix "durable_queue_for_" (qi_Name q)
  then (<[qi_Name q := true]> rabbitQueueMap, (rabbitQueueList ++ [qi_Name q])%list)
  else (rabbitQueueMap, rabbitQueueList).

(** [handleQueueReconciliation]; [enum m] is the order in which the
    runtime ranges over the keys of the map [m]. *)
Definition handleQueueReconciliation (enum : gmap string bool -> list string)
  (dbChannels : list_res Channel) (rabbitQueues : list_res QueueInfo) : recon_page :=
  match dbChannels with
  | LErr e => ReconError 500%Z ("Failed to retrieve channels from database: " ++ e)
  | LOk dbChannels =>
      let '(dbQueueMap, dbQueueList) := fold_left db_queue_step dbChannels (∅, []) in
      match rabbitQueues with
      | LErr e => ReconError 500%Z e
      | LOk rabbitQueues =>
          let '(rabbitQueueMap, rabbitQueueList) := fold_left rabbit_queue_step rabbitQueues (∅, []) in
          let '(orphaned, matching) :=
            fold_left (fun '(o, mt) qName =>
                         if negb (default false (dbQueueMap !! qName)) then ((o ++ [qName])%list, mt)
                         else (o, (mt ++ [qName])%list))
                      (enum rabbitQueueMap) ([], []) in
          let missing :=
            fold_left (fun mi qName =>
                         if negb (default false (rabbitQueueMap !! qName)) then (mi ++ [qName])%list else mi)
                      (enum dbQueueMap) [] in
          ReconOk (mkQueueReconResult dbQueueList rabbitQueueList orphaned missing matching)
      end
  end.

Definition sample_db_channels : list Channel :=
  [mkChannel "c1" "a1" "orders-in" "inbound" "orders" false;
   mkChannel "c2" "a1" "orders-out" "outbound" "orders" false;
   mkChannel "c3" "a1" "stock" "inbound" "stock" false].

Definition sample_rabbit_queues : list QueueInfo :=
  [mkQueueInfo "durable_queue_for_orders" "/" true;
   mkQueueInfo "durable_queue_for_legacy" "/" true;
   mkQueueInfo "amq.gen-1" "/" false].

(* ------------------------------------------------------------------------- *)
(** ** Broker topology ([SetupDurableTopology], [setupFanoutSubscription]) *)

(** The broker as the topology commands see it: exchanges with their
    kind and durability, queues with their durability, and the
    (queue, exchange) bindings. *)
Record Broker : Type := mkBroker {
  b_exchanges : gmap string (string * bool);
  b_queues : gmap string bool;
  b_bindings : gset (string * string)
}.

(** [exchange.declare]: redeclaring with other arguments is refused
    (PRECONDITION_FAILED). *)
Definition ExchangeDeclare (b : Broker) (name kind : string) (durable : bool)
  : option string * Broker :=
  match b_exchanges b !! name with
  | Some (k, d) =>
      if String.eqb k kind && Bool.eqb d durable then (None, b)
      else (Some "PRECONDITION_FAILED - inequivalent arg for exchange", b)
  | None => (None, mkBroker (<[name := (kind, durable)]> (b_exchanges b)) (b_queues b) (b_bindings b))
  end.

Definition QueueDeclare (b : Broker) (name : string) (durable : bool) : option string * Broker :=
  match b_queues b !! name with
  | Some d =>
      if Bool.eqb d durable then (None, b)
      else (Some "PRECONDITION_FAILED - inequivalent arg 'durable' for queue", b)
  | None => (None, mkBroker (b_exchanges b) (<[name := durable]> (b_queues b)) (b_bindings b))
  end.

Definition QueueBind (b : Broker) (queue exchange : string) : option string * Broker :=
  match b_queues b !! queue, b_exchanges b !! exchange with
  | Some _, Some _ =>
      (None, mkBroker (b_exchanges b) (b_queues b) ({[(queue, exchange)]} ∪ b_bindings b))
  | _, _ => (Some "NOT_FOUND", b)
  end.

(** [SetupDurableTopology]; [chan_ok] is the outcome of [conn.Channel()]. *)
Definition SetupDurableTopology (chan_ok : bool) (b : Broker) (baseName : string)
  : option string * Broker :=
  if negb chan_ok then (Some "failed to open a channel", b) else
  let durableExchangeName := "durable_exchange_for_" ++ baseName in
  let durableQueueName := "durable_queue_for_" ++ baseName in
  let '(err, b) := ExchangeDeclare b durableExchangeName "fanout" true in
  match err with
  | Some e => (Some ("failed to declare durable exchange: " ++ e), b)
  | None =>
      let '(err, b) := QueueDeclare b durableQueueName true in
      match err with
      | Some e => (Some ("failed to declare durable queue: " ++ e), b)
      | None =>
          let '(err, b) := QueueBind b durableQueueName durableExchangeName in
          match err with
          | Some e => (Some ("failed to bind durable queue: " ++ e), b)
          | None => (None, b)
          end
      end
  end.

(** [setupFanoutSubscription]. *)
Definition setupFanoutSubscription (chan_ok : bool) (b : Broker) (exchangeName queueName : string)
  : option string * Broker :=
  if negb chan_ok then (Some "could not open channel", b) else
  let '(err, b) := ExchangeDeclare b exchangeName "fanout" true in
  match err with
  | Some e => (Some ("failed to declare fanout exchange '" ++ exchangeName ++ "': " ++ e), b)
  | None =>
      let '(err, b) := QueueDeclare b queueName true in
      match err with
      | Some e => (Some ("failed to declare subscription queue '" ++ queueName ++ "': " ++ e), b)
      | None =>
          let '(err, b) := QueueBind b queueName exchangeName in
          match err with
          | Some e => (Some ("failed to bind queue '" ++ queueName ++ "' to exchange '"
                             ++ exchangeName ++ "': " ++ e), b)
          | None => (None, b)
          end
      end
  end.

(** [EnsureExchange]. *)
Definition EnsureExchange (chan_ok : bool) (b : Broker) (name : string) : option string * Broker :=
  if negb chan_ok then (Some "could not open channel to ensure exchange", b)
  else ExchangeDeclare b name "fanout" true.

(** A message published to the fanout exchange [ex] is delivered to [q]. *)
Definition routes_to (b : Broker) (ex q : string) : Prop :=
  (q, ex) ∈ b_bindings b /\ exists d, b_exchanges b !! ex = Some ("fanout", d).

(** The declarations the code makes of [ex] and [q] are accepted. *)
Definition declarable (b : Broker) (ex q : string) : Prop :=
  match b_exchanges b !! ex with Some (k, d) => k = "fanout" /\ d = true | None => True end /\
  match b_queues b !! q with Some d => d = true | None => True end.

Definition broker_le (b b' : Broker) : Prop :=
  (forall k v, b_exchanges b !! k = Some v -> b_exchanges b' !! k = Some v) /\
  b_bindings b ⊆ b_bindings b'.

Definition subscribed (b : Broker) (ex q : string) : Broker :=
  mkBroker (<[ex := ("fanout", true)]> (b_exchanges b)) (<[q := true]> (b_queues b))
           ({[(q, ex)]} ∪ b_bindings b).

(* ========================================================================= *)
(** * Properties *)

(** Every property of a delivery that [republishAsDurable] copies. *)
Definition same_props (d : Delivery) (p : Publishing) : Prop :=
  p_Headers p = d_Headers d /\ p_ContentType p = d_ContentType d /\
  p_ContentEncoding p = d_ContentEncoding d /\ p_CorrelationId p = d_CorrelationId d /\
  p_ReplyTo p = d_ReplyTo d /\ p_Expiration p = d_Expiration d /\
  p_MessageId p = d_MessageId d /\ p_Timestamp p = d_Timestamp d /\
  p_Type p = d_Type d /\ p_UserId p = d_UserId d /\ p_AppId p = d_AppId d /\
  p_Priority p = d_Priority d.

Ltac split_matches :=
  repeat match goal with
  | H : context [match ?x with _ => _ end] |- _ => destruct x eqn:?
  | |- context [match ?x with _ => _ end] => destruct x eqn:?
  end.

Lemma republish_effects broker msg ex0 ex rk p b :
  In (EPublish ex rk p b) (fst (republishAsDurable broker msg ex0)) ->
  p = publishing_of msg Persistent /\ ex = ex0 /\ rk = "".
Proof.
  unfold republishAsDurable; destruct (broker ex0 _); simpl;
    intros H; intuition congruence.
Qed.

Lemma publishing_of_props d b :
  same_props d (publishing_of (with_body d b) Persistent) /\
  p_DeliveryMode (publishing_of (with_body d b) Persistent) = Persistent /\
  p_Body (publishing_of (with_body d b) Persistent) = b.
Proof. destruct d; unfold same_props; simpl; repeat split. Qed.

Lemma with_body_same d : with_body d (d_Body d) = d.
Proof. destruct d; reflexivity. Qed.

(** The tail of [route_one] that republishes a body. *)
Lemma publish_tail_effects broker d b ex0 ex rk p ok :
  In (EPublish ex rk p ok)
     (let (eff, ok) := republishAsDurable broker (with_body d b) ex0 in
      (eff ++ [if ok then EAck else ENack true])%list) ->
  p = publishing_of (with_body d b) Persistent /\ ex = ex0 /\ rk = "".
Proof.
  destruct (republishAsDurable broker (with_body d b) ex0) as [eff ok'] eqn:E.
  intros H; apply in_app_or in H; destruct H as [H | H].
  - apply (republish_effects broker (with_body d b) ex0 ex rk p ok); rewrite E; exact H.
  - simpl in H; destruct ok'; intuition discriminate.
Qed.

Ltac absurd_in := let H := fresh in intros H; simpl in H; intuition discriminate.

Lemma publish_tail_no_exec broker d b ex0 r :
  ~ In (EExec r)
     (let (eff, ok) := republishAsDurable broker (with_body d b) ex0 in
      (eff ++ [if ok then EAck else ENack true])%list).
Proof.
  unfold republishAsDurable; destruct (broker ex0 _); simpl; intuition discriminate.
Qed.

(** A script run that returns a nil message ends the delivery with an ack. *)
Lemma route_one_filtered env routeID d :
  In (EExec (ROk None)) (route_one env routeID d) ->
  route_one env routeID d = [EExec (ROk None); EAck].
Proof.
  unfold route_one.
  destruct (fetch_route _) as [e | [route |]]; simpl; try absurd_in.
  destruct (r_DestinationChannelID route) as [destID |]; simpl; try absurd_in.
  destruct (String.eqb destID ""); simpl; try absurd_in.
  destruct (re_GetChannelByID env destID) as [e | [destChannel |]]; simpl; try absurd_in.
  destruct (String.eqb (r_RouteType route) "transform").
  2:{ intros H; apply publish_tail_no_exec in H; contradiction. }
  destruct (is_empty_opt (r_TransformationID route)); simpl; try absurd_in.
  destruct (re_GetTransformationByID env _) as [e | [transform |]]; simpl; try absurd_in.
  destruct (re_unmarshal env (d_Body d)) as [bodyMap |]; simpl; try absurd_in.
  destruct (re_ExecuteScript env _ _ _ _) as [e | [tm |]] eqn:E; simpl.
  - intros [H | [H | H]]; discriminate || contradiction.
  - intros [H | H]; [discriminate |].
    destruct (re_marshal env (tm_Body tm)); simpl in H.
    + apply publish_tail_no_exec in H; contradiction.
    + intuition discriminate.
  - reflexivity.
Qed.

Lemma publish_tail_props broker d b ex0 ex rk p ok :
  In (EPublish ex rk p ok)
     (let (eff, ok) := republishAsDurable broker (with_body d b) ex0 in
      (eff ++ [if ok then EAck else ENack true])%list) ->
  same_props d p /\ p_DeliveryMode p = Persistent /\ p_Body p = b.
Proof.
  intros H; apply publish_tail_effects in H; destruct H as [-> _].
  apply publishing_of_props.
Qed.

(** Every publish of the route worker copies the delivery's properties;
    its body is the delivery's unless the script host ran. *)
Lemma route_one_publish env routeID d ex rk p ok :
  In (EPublish ex rk p ok) (route_one env routeID d) ->
  same_props d p /\ p_DeliveryMode p = Persistent /\
  (p_Body p = d_Body d \/ exists r, In (EExec r) (route_one env routeID d)).
Proof.
  intros H; pose proof H as H0; revert H0; unfold route_one in *.
  destruct (fetch_route _) as [e | [route |]]; try absurd_in.
  destruct (r_DestinationChannelID route) as [destID |]; try absurd_in.
  destruct (String.eqb destID ""); try absurd_in.
  destruct (re_GetChannelByID env destID) as [e | [destChannel |]]; try absurd_in.
  destruct (String.eqb (r_RouteType route) "transform").
  2:{ intros H0; apply publish_tail_props in H0; intuition. }
  destruct (is_empty_opt (r_TransformationID route)); try absurd_in.
  destruct (re_GetTransformationByID env _) as [e | [transform |]]; try absurd_in.
  destruct (re_unmarshal env (d_Body d)) as [bodyMap |]; try absurd_in.
  intros H0; simpl in H0; destruct H0 as [H0 | H0]; [discriminate |].
  destruct (re_ExecuteScript env _ _ _ _) as [e | [tm |]]; try (simpl in H0; intuition discriminate).
  destruct (re_marshal env (tm_Body tm)); [| simpl in H0; intuition discriminate].
  apply publish_tail_props in H0.
  split; [tauto | split; [tauto |]].
  right; eexists; left; reflexivity.
Qed.

(* ------------------------------------------------------------------------- *)
(** ** Claim theorems *)

(** C1: filter semantics.  When a transformation's [transform] returns
    [None] (Starlark) or [null]/[undefined] (JavaScript), the script host
    returns [(nil, nil)]; and whenever the route worker gets [(nil, nil)]
    from the script host, it acknowledges the delivery and publishes
    nothing: its only effects are the script run and the ack. *)
Theorem filter_returns_nil_and_acks :
  (forall sl script body headers sb sh g f,
     convertMapToStarlarkDict body = Some sb ->
     convertMapToStarlarkDict headers = Some sh ->
     sl starlark_predeclared script = SLGlobals g ->
     assoc "transform" g = Some (SLFunc f) ->
     f [sb; sh] = SCallOk SNone ->
     starlark_execute sl script body headers = ROk None) /\
  (forall js ee script body headers g f v,
     js goja_injected script = JSGlobals g ->
     assoc "transform" g = Some (JSFunc f) ->
     f [GMap body; GMap headers] = JCallOk v ->
     v = JNull \/ v = JUndef ->
     goja_execute js ee script body headers = ROk None) /\
  (forall env routeID d,
     In (EExec (ROk None)) (route_one env routeID d) ->
     route_one env routeID d = [EExec (ROk None); EAck] /\
     (forall ex rk p ok, ~ In (EPublish ex rk p ok) (route_one env routeID d))).
Proof.
  split; [| split].
  - intros sl script body headers sb sh g f Hb Hh Hg Ht Hf.
    unfold starlark_execute; rewrite Hb, Hh, Hg, Ht, Hf; reflexivity.
  - intros js ee script body headers g f v Hg Ht Hf Hv.
    unfold goja_execute; rewrite Hg, Ht, Hf; destruct Hv as [-> | ->]; reflexivity.
  - intros env routeID d H; apply route_one_filtered in H; rewrite H.
    split; [reflexivity |]; intros ex rk p ok; simpl; intuition discriminate.
Qed.

(** C2: every republish of the outbound collector and of the route worker
    copies headers, content type and encoding, correlation id, reply-to,
    expiration, message id, timestamp, type, user id, app id and priority
    from the source delivery and is persistent; the outbound collector
    keeps the body, and the route worker keeps it unless the script host
    ran on the delivery (a transform route). *)
Theorem republish_preserves_properties :
  (forall broker baseName ds ex rk p ok,
     In (EPublish ex rk p ok) (collectMessages broker baseName ds) ->
     exists d, In d ds /\ same_props d p /\ p_DeliveryMode p = Persistent /\
               p_Body p = d_Body d) /\
  (forall env routeID ds ex rk p ok,
     In (EPublish ex rk p ok) (routeMessageLoop env routeID ds) ->
     exists d, In d ds /\ same_props d p /\ p_DeliveryMode p = Persistent /\
               (p_Body p = d_Body d \/
                exists r, In (EExec r) (route_one env routeID d))).
Proof.
  split.
  - intros broker baseName ds ex rk p ok H.
    unfold collectMessages in H; apply in_flat_map in H; destruct H as [d [Hd H]].
    exists d; split; [exact Hd |].
    unfold collect_one in H; rewrite <- (with_body_same d) in H at 1.
    apply publish_tail_props in H; exact H.
  - intros env routeID ds ex rk p ok H.
    unfold routeMessageLoop in H; apply in_flat_map in H; destruct H as [d [Hd H]].
    exists d; split; [exact Hd |]; exact (route_one_publish env routeID d ex rk p ok H).
Qed.

(** C3: the inbound forwarder of [baseName] acks the message it got from
    [durable_queue_for_<baseName>] only after publishing it to the queue
    [baseName] succeeded; when that publish fails, it nacks with requeue
    and does not ack. *)
Theorem inbound_ack_only_after_publish env baseName :
  (In EAck (fst (inbound_iteration env baseName)) ->
   exists msg,
     fe_get env ("durable_queue_for_" ++ baseName) = GetMsg msg /\
     fe_publish env "" baseName (publishing_of msg Transient) = true /\
     fst (inbound_iteration env baseName) =
       [EPublish "" baseName (publishing_of msg Transient) true; EAck]) /\
  (forall ex rk p,
     In (EPublish ex rk p false) (fst (inbound_iteration env baseName)) ->
     fst (inbound_iteration env baseName) = [EPublish ex rk p false; ENack true] /\
     ~ In EAck (fst (inbound_iteration env baseName))).
Proof.
  unfold inbound_iteration, forwardOneMessage.
  destruct (fe_channel_ok env); simpl; [| split; [tauto | intros; contradiction]].
  destruct (fe_queue_exists env baseName); simpl; [| split; [tauto | intros; contradiction]].
  destruct (fe_get env _) as [e | | msg] eqn:Eg; simpl;
    try (split; [tauto | intros; contradiction]).
  destruct (fe_publish env "" baseName _) eqn:Ep; simpl.
  - split.
    + intros _; exists msg; auto.
    + intros ex rk p [H | [H | H]]; discriminate || contradiction.
  - split.
    + intuition discriminate.
    + intros ex rk p [H | [H | H]]; [| discriminate | contradiction].
      injection H as <- <- <-; split; [reflexivity | intuition discriminate].
Qed.

(** C4: when the route read for a delivery has no destination channel
    ([NULL] or the empty string), the delivery is nacked without requeue
    and nothing else happens (no ack, no publish). *)
Theorem null_destination_dead_letters env routeID d route :
  fetch_route (re_GetRouteByID env) = SOk (Some route) ->
  is_empty_opt (r_DestinationChannelID route) = true ->
  route_one env routeID d = [ENack false].
Proof.
  intros Hr Hd; unfold route_one; rewrite Hr.
  destruct (r_DestinationChannelID route) as [destID |]; [| reflexivity].
  simpl in Hd; rewrite Hd; reflexivity.
Qed.

Example route_filter_example :
  route_one (sample_env (sample_route (Some "c2") "transform") "starlark"
               (ExecuteScript (starlark_transform_returning SNone) (goja_transform_returning JNull)
                  sample_export_error))
            "r1" sample_delivery = [EExec (ROk None); EAck].
Proof. reflexivity. Qed.

Example route_direct_example :
  route_one (sample_env (sample_route (Some "c2") "direct") "starlark"
               (ExecuteScript (starlark_transform_returning SNone) (goja_transform_returning JNull)
                  sample_export_error))
            "r1" sample_delivery =
  [EPublish "durable_exchange_for_dst" "" (publishing_of sample_delivery Persistent) true; EAck].
Proof. reflexivity. Qed.

Lemma filter_returns_nil_and_acks_witness :
  starlark_execute (starlark_transform_returning SNone) "s" [] [] = ROk None /\
  goja_execute (goja_transform_returning JUndef) sample_export_error "s" [] [] = ROk None /\
  route_one filter_env "r1" sample_delivery = [EExec (ROk None); EAck].
Proof.
  split; [| split].
  - eapply (proj1 filter_returns_nil_and_acks); reflexivity.
  - eapply (proj1 (proj2 filter_returns_nil_and_acks)); try reflexivity; right; reflexivity.
  - apply (proj2 (proj2 filter_returns_nil_and_acks)); vm_compute; left; reflexivity.
Defined.

Lemma republish_preserves_properties_witness :
  exists d, In d [sample_delivery] /\
    same_props d (publishing_of sample_delivery Persistent) /\
    p_DeliveryMode (publishing_of sample_delivery Persistent) = Persistent /\
    p_Body (publishing_of sample_delivery Persistent) = d_Body d.
Proof.
  apply (proj1 republish_preserves_properties (fun _ _ => PubOk) "dst" [sample_delivery]
           "durable_exchange_for_dst" "" (publishing_of sample_delivery Persistent) true).
  vm_compute; left; reflexivity.
Defined.

Lemma inbound_ack_only_after_publish_witness :
  fst (inbound_iteration (forward_env_publish true) "q1") =
    [EPublish "" "q1" (publishing_of sample_delivery Transient) true; EAck] /\
  ~ In EAck (fst (inbound_iteration (forward_env_publish false) "q1")).
Proof.
  split.
  - destruct (proj1 (inbound_ack_only_after_publish (forward_env_publish true) "q1"))
      as [msg [Hg [_ Heq]]].
    + vm_compute; right; left; reflexivity.
    + vm_compute in Hg; injection Hg as <-; exact Heq.
  - apply (proj2 (inbound_ack_only_after_publish (forward_env_publish false) "q1")
             "" "q1" (publishing_of sample_delivery Transient)).
    vm_compute; left; reflexivity.
Defined.

Lemma null_destination_dead_letters_witness :
  route_one (sample_env (sample_route None "direct") "starlark"
               (ExecuteScript (starlark_transform_returning SNone) (goja_transform_returning JNull)
                  sample_export_error))
            "r1" sample_delivery = [ENack false].
Proof.
  apply (null_destination_dead_letters _ "r1" sample_delivery (sample_route None "direct"));
    reflexivity.
Defined.

(** C5 (as the code has it).  [transform]: when its result converts to a
    Go map whose [body] entry is a map, [Execute] returns that body with
    the incoming headers.  [collect] (reached when no [transform] function
    is defined): when its result converts to a Go map, [Execute] returns
    the whole map as the body with empty headers if it is non-empty, and
    [(nil, nil)] if it is empty.  Both engines.  In Starlark a result
    converts when it is a dict with string keys or a struct whose values
    are [None], bools, strings, ints within [int64], floats, or lists,
    dicts and structs of such values (a tuple anywhere makes it fail); in
    JavaScript when it is an object or an array. *)
Theorem execute_result_body :
  (forall sl script body headers sb sh g f v rm tb,
     convertMapToStarlarkDict body = Some sb ->
     convertMapToStarlarkDict headers = Some sh ->
     sl starlark_predeclared script = SLGlobals g ->
     assoc "transform" g = Some (SLFunc f) ->
     f [sb; sh] = SCallOk v ->
     convertStarlarkDictToMap v = Some rm ->
     as_map (gmap_get rm "body") = Some tb ->
     starlark_execute sl script body headers = ROk (Some (mkTM tb headers))) /\
  (forall sl script body headers sb sh g f v rm,
     convertMapToStarlarkDict body = Some sb ->
     convertMapToStarlarkDict headers = Some sh ->
     sl starlark_predeclared script = SLGlobals g ->
     (forall f', assoc "transform" g <> Some (SLFunc f')) ->
     assoc "collect" g = Some (SLFunc f) ->
     f [] = SCallOk v ->
     convertStarlarkDictToMap v = Some rm ->
     starlark_execute sl script body headers =
       if Nat.ltb 0 (length rm) then ROk (Some (mkTM rm [])) else ROk None) /\
  (forall js ee script body headers g f v rm tb,
     js goja_injected script = JSGlobals g ->
     assoc "transform" g = Some (JSFunc f) ->
     f [GMap body; GMap headers] = JCallOk v ->
     js_export_to_map v = Some rm ->
     as_map (gmap_get rm "body") = Some tb ->
     goja_execute js ee script body headers = ROk (Some (mkTM tb headers))) /\
  (forall js ee script body headers g f v rm,
     js goja_injected script = JSGlobals g ->
     (forall f', assoc "transform" g <> Some (JSFunc f')) ->
     assoc "collect" g = Some (JSFunc f) ->
     f [] = JCallOk v ->
     js_export_to_map v = Some rm ->
     goja_execute js ee script body headers =
       if Nat.ltb 0 (length rm) then ROk (Some (mkTM rm [])) else ROk None).
Proof.
  split; [| split; [| split]].
  - intros sl script body headers sb sh g f v rm tb Hb Hh Hg Ht Hf Hc Hbody.
    unfold starlark_execute; rewrite Hb, Hh, Hg, Ht, Hf.
    destruct v; try discriminate Hc; cbv beta iota zeta; rewrite Hc, Hbody; reflexivity.
  - intros sl script body headers sb sh g f v rm Hb Hh Hg Hnt Hcol Hf Hc.
    unfold starlark_execute; rewrite Hb, Hh, Hg.
    destruct (assoc "transform" g) as [[f0 | v0] |] eqn:Et;
      [exfalso; exact (Hnt f0 eq_refl) | |];
      cbv beta iota zeta; rewrite Hcol, Hf;
      destruct v; try discriminate Hc; cbv beta iota zeta; rewrite Hc; reflexivity.
  - intros js ee script body headers g f v rm tb Hg Ht Hf Hc Hbody.
    unfold goja_execute; rewrite Hg, Ht, Hf.
    destruct v; try discriminate Hc; cbv beta iota zeta; rewrite Hc, Hbody; reflexivity.
  - intros js ee script body headers g f v rm Hg Hnt Hcol Hf Hc.
    unfold goja_execute; rewrite Hg.
    destruct (assoc "transform" g) as [[f0 | v0] |] eqn:Et;
      [exfalso; exact (Hnt f0 eq_refl) | |];
      cbv beta iota zeta; rewrite Hcol, Hf;
      destruct v; try discriminate Hc; cbv beta iota zeta; rewrite Hc; reflexivity.
Qed.

(** C5 fails for [collect]: a collector script returning
    [{"body": {"a": 1}}] yields that whole mapping as the message body,
    not its [body] field [{"a": 1}], in both engines. *)
Lemma execute_collect_body_field_counterexample :
  starlark_execute (starlark_collect_returning
                      (SDict [(SString "body", SDict [(SString "a", SInt 1)])])) "s" [] [] =
    ROk (Some (mkTM [("body", GMap [("a", GInt 1)])] [])) /\
  starlark_execute (starlark_collect_returning
                      (SDict [(SString "body", SDict [(SString "a", SInt 1)])])) "s" [] [] <>
    ROk (Some (mkTM [("a", GInt 1)] [])) /\
  goja_execute (goja_collect_returning (JObj [("body", JObj [("a", JNum 1)])]))
    sample_export_error "s" [] [] =
    ROk (Some (mkTM [("body", GMap [("a", GInt 1)])] [])) /\
  goja_execute (goja_collect_returning (JObj [("body", JObj [("a", JNum 1)])]))
    sample_export_error "s" [] [] <>
    ROk (Some (mkTM [("a", GInt 1)] [])).
Proof. vm_compute; repeat split; congruence. Qed.

Lemma execute_result_body_witness :
  starlark_execute (starlark_transform_returning
                      (SDict [(SString "body", SDict [(SString "a", SInt 1);
                                                      (SString "rate", SFloat 4609434218613702656)])]))
    "s" [("total", GInt 20)] [("h", GStr "v")] =
    ROk (Some (mkTM [("rate", GFloat 4609434218613702656); ("a", GInt 1)] [("h", GStr "v")])) /\
  starlark_execute (starlark_collect_returning (SDict [(SString "ts", SInt 1)])) "s" [] [] =
    ROk (Some (mkTM [("ts", GInt 1)] [])) /\
  goja_execute (goja_transform_returning (JObj [("body", JObj [("a", JNum 1)])]))
    sample_export_error "s" [] [("h", GStr "v")] =
    ROk (Some (mkTM [("a", GInt 1)] [("h", GStr "v")])) /\
  goja_execute (goja_collect_returning (JObj [("ts", JNum 1)])) sample_export_error "s" [] [] =
    ROk (Some (mkTM [("ts", GInt 1)] [])).
Proof.
  split; [| split; [| split]].
  - eapply (proj1 execute_result_body); reflexivity.
  - refine (eq_trans (proj1 (proj2 execute_result_body)
             (starlark_collect_returning (SDict [(SString "ts", SInt 1)])) "s" [] [] (SDict []) (SDict [])
             _ _ _ [("ts", GInt 1)] eq_refl eq_refl eq_refl _ eq_refl eq_refl eq_refl) eq_refl).
    intros f' H; discriminate H.
  - eapply (proj1 (proj2 (proj2 execute_result_body))); reflexivity.
  - refine (eq_trans (proj2 (proj2 (proj2 execute_result_body))
             (goja_collect_returning (JObj [("ts", JNum 1)])) sample_export_error "s" [] []
             _ _ _ [("ts", GInt 1)] eq_refl _ eq_refl eq_refl eq_refl) eq_refl).
    intros f' H; discriminate H.
Defined.

(** C9 (as the code has it).  When [transform] returns a value that
    converts to a Go map (a Starlark dict with string keys or struct whose
    values all convert; a JavaScript object or array) and its [body] entry
    is absent or not a map, [Execute] returns [(nil, nil)].  When it
    returns a non-null value that does not convert to a Go map (a
    Starlark list or number, a dict holding a tuple or an integer beyond
    int64; a JavaScript number, string or boolean), [Execute] returns an
    error: ["transform result must be a dict, got <type>"] in Starlark,
    ["failed to export transform result: <goja error>"] in JavaScript. *)
Theorem transform_without_map_body :
  (forall sl script body headers sb sh g f v,
     convertMapToStarlarkDict body = Some sb ->
     convertMapToStarlarkDict headers = Some sh ->
     sl starlark_predeclared script = SLGlobals g ->
     assoc "transform" g = Some (SLFunc f) ->
     f [sb; sh] = SCallOk v ->
     (forall rm, convertStarlarkDictToMap v = Some rm ->
        as_map (gmap_get rm "body") = None ->
        starlark_execute sl script body headers = ROk None) /\
     (v <> SNone -> convertStarlarkDictToMap v = None ->
        starlark_execute sl script body headers =
          RErr ("transform result must be a dict, got " ++ sl_type v))) /\
  (forall js ee script body headers g f v,
     js goja_injected script = JSGlobals g ->
     assoc "transform" g = Some (JSFunc f) ->
     f [GMap body; GMap headers] = JCallOk v ->
     (forall rm, js_export_to_map v = Some rm ->
        as_map (gmap_get rm "body") = None ->
        goja_execute js ee script body headers = ROk None) /\
     (v <> JNull -> v <> JUndef -> js_export_to_map v = None ->
        goja_execute js ee script body headers =
          RErr ("failed to export transform result: " ++ ee v))).
Proof.
  split.
  - intros sl script body headers sb sh g f v Hb Hh Hg Ht Hf.
    unfold starlark_execute; rewrite Hb, Hh, Hg, Ht, Hf; split.
    + intros rm Hc Hbody.
      destruct v; try discriminate Hc; cbv beta iota zeta; rewrite Hc, Hbody; reflexivity.
    + intros Hn Hc.
      destruct v; [congruence | ..]; cbv beta iota zeta; rewrite Hc; reflexivity.
  - intros js ee script body headers g f v Hg Ht Hf.
    unfold goja_execute; rewrite Hg, Ht, Hf; split.
    + intros rm Hc Hbody.
      destruct v; try discriminate Hc; cbv beta iota zeta; rewrite Hc, Hbody; reflexivity.
    + intros Hn Hu Hc.
      destruct v; [congruence | congruence | ..]; cbv beta iota zeta; rewrite Hc; reflexivity.
Qed.

(** C9 fails as stated: a Starlark [transform] returning a list, or
    [{"body": (1, 2)}] whose [body] is a tuple, or a JavaScript one
    returning a number, has no [body] mapping, yet [Execute] returns an
    error rather than [(nil, nil)]. *)
Lemma transform_non_mapping_result_counterexample :
  starlark_execute (starlark_transform_returning (SList [])) "s" [] [] =
    RErr "transform result must be a dict, got list" /\
  starlark_execute (starlark_transform_returning
                      (SDict [(SString "body", STuple [SInt 1; SInt 2])])) "s" [] [] =
    RErr "transform result must be a dict, got dict" /\
  goja_execute (goja_transform_returning (JNum 5)) sample_export_error "s" [] [] =
    RErr "failed to export transform result: could not convert value".
Proof. split; [| split]; reflexivity. Qed.

Lemma transform_without_map_body_witness :
  starlark_execute (starlark_transform_returning (SDict [(SString "body", SInt 3)])) "s" [] [] =
    ROk None /\
  starlark_execute (starlark_transform_returning (SList [])) "s" [] [] =
    RErr "transform result must be a dict, got list" /\
  goja_execute (goja_transform_returning (JObj [("other", JNum 1)])) sample_export_error
    "s" [] [] = ROk None /\
  goja_execute (goja_transform_returning (JStr "x")) sample_export_error "s" [] [] =
    RErr "failed to export transform result: could not convert value".
Proof.
  split; [| split; [| split]].
  - eapply (proj1 (proj1 transform_without_map_body
             (starlark_transform_returning (SDict [(SString "body", SInt 3)])) "s" [] [] (SDict []) (SDict [])
             _ _ (SDict [(SString "body", SInt 3)]) eq_refl eq_refl eq_refl eq_refl eq_refl));
      reflexivity.
  - eapply (proj2 (proj1 transform_without_map_body
             (starlark_transform_returning (SList [])) "s" [] [] (SDict []) (SDict [])
             _ _ (SList []) eq_refl eq_refl eq_refl eq_refl eq_refl));
      [discriminate | reflexivity].
  - eapply (proj1 (proj2 transform_without_map_body
             (goja_transform_returning (JObj [("other", JNum 1)])) sample_export_error "s" [] []
             _ _ (JObj [("other", JNum 1)]) eq_refl eq_refl eq_refl)); reflexivity.
  - eapply (proj2 (proj2 transform_without_map_body
             (goja_transform_returning (JStr "x")) sample_export_error "s" [] []
             _ _ (JStr "x") eq_refl eq_refl eq_refl)); [discriminate | discriminate | reflexivity].
Defined.

(** C6 (the code departs from the claim).  Both engines get an [http]
    capability backed by [NewHTTPClient], whose client timeout is 10
    seconds, and a request or network failure does not raise but fills the
    [error] field of the response.  But the names differ: the Starlark
    runtime is handed only [starlark_predeclared], whose [http] module has
    [get] and no [post]; the Goja runtime is handed only [goja_injected],
    whose [http] object is the Go [*HTTPClient] with the Go names [Client],
    [Logger], [Get] and [Post], and neither [get] nor [post]. *)
Theorem http_capability :
  client_Timeout NewHTTPClient = 10%Z /\
  (forall nre tr url headers e,
     (nre "GET" url = Some e \/ (nre "GET" url = None /\ forall req, tr req = DoErr e)) ->
     resp_Error (http_Get nre tr NewHTTPClient url headers) = e) /\
  (forall nre tr url headers body e,
     (nre "POST" url = Some e \/ (nre "POST" url = None /\ forall req, tr req = DoErr e)) ->
     resp_Error (http_Post nre tr NewHTTPClient url headers body) = e) /\
  (forall sl sl' script body headers,
     sl starlark_predeclared script = sl' starlark_predeclared script ->
     starlark_execute sl script body headers = starlark_execute sl' script body headers) /\
  (forall js js' ee script body headers,
     js goja_injected script = js' goja_injected script ->
     goja_execute js ee script body headers = goja_execute js' ee script body headers) /\
  assoc "http" starlark_predeclared = Some ["get"] /\
  assoc "http" goja_injected = Some ["Client"; "Logger"; "Get"; "Post"] /\
  (forall attrs, assoc "http" starlark_predeclared = Some attrs -> ~ In "post" attrs) /\
  (forall attrs, assoc "http" goja_injected = Some attrs -> ~ In "get" attrs /\ ~ In "post" attrs) /\
  (forall nre tr url headers,
     starlark_http_get nre tr NewHTTPClient url headers =
       SStruct [("status_code", SInt (resp_StatusCode (http_Get nre tr NewHTTPClient url headers)));
                ("body", SString (resp_Body (http_Get nre tr NewHTTPClient url headers)));
                ("headers", SDict (map (fun kv => (SString (fst kv), SString (snd kv)))
                                       (resp_Headers (http_Get nre tr NewHTTPClient url headers))));
                ("error", SString (resp_Error (http_Get nre tr NewHTTPClient url headers)))]).
Proof.
  split; [reflexivity |].
  split.
  { intros nre tr url headers e [H | [H Ht]]; unfold http_Get; rewrite H; [reflexivity |].
    unfold finish; rewrite Ht; reflexivity. }
  split.
  { intros nre tr url headers body e [H | [H Ht]]; unfold http_Post; rewrite H; [reflexivity |].
    unfold finish; rewrite Ht; reflexivity. }
  split.
  { intros sl sl' script body headers H; unfold starlark_execute; rewrite H; reflexivity. }
  split.
  { intros js js' ee script body headers H; unfold goja_execute; rewrite H; reflexivity. }
  split; [reflexivity |].
  split; [reflexivity |].
  split.
  { intros attrs H; injection H as <-; simpl; intuition discriminate. }
  split.
  { intros attrs H; injection H as <-; simpl; split; intuition discriminate. }
  intros; reflexivity.
Qed.

Lemma http_capability_witness :
  resp_Error (http_Get (fun _ _ => None) (fun _ => DoErr "connection refused")
                NewHTTPClient "http://rates.example/usd" []) = "connection refused" /\
  resp_Error (http_Post (fun _ _ => None) (fun _ => DoErr "timeout")
                NewHTTPClient "http://rates.example/usd" [] "{}") = "timeout".
Proof.
  split.
  - apply (proj1 (proj2 http_capability)); right; split; reflexivity.
  - apply (proj1 (proj2 (proj2 http_capability))); right; split; reflexivity.
Defined.

Lemma assoc_app {A} k (l1 l2 : list (string * A)) :
  assoc k (l1 ++ l2)%list = match assoc k l1 with Some a => Some a | None => assoc k l2 end.
Proof.
  induction l1 as [| [k' a] l1 IH]; simpl; [reflexivity |].
  destruct (String.eqb k k'); [reflexivity | exact IH].
Qed.

Lemma assoc_create tab t cols s :
  assoc tab (create_table_if_not_exists t cols s) =
  match assoc tab s with
  | Some cs => Some cs
  | None => if String.eqb tab t then Some cols else None
  end.
Proof.
  unfold create_table_if_not_exists.
  destruct (assoc t s) as [cs0 |] eqn:Et.
  - destruct (assoc tab s) eqn:Ed; [reflexivity |].
    destruct (String.eqb tab t) eqn:Eq; [| reflexivity].
    apply String.eqb_eq in Eq; subst; congruence.
  - rewrite assoc_app; destruct (assoc tab s); [reflexivity |]; simpl.
    destruct (String.eqb tab t); reflexivity.
Qed.

(** C7 (code_bug evaluation).  [migrate] never adds [fanout_mode] to
    [channels]: the column is present afterwards exactly when it was
    before.  On a fresh database it creates [channels] without
    [fanout_mode] and [routes] without [name], [route_type],
    [transformation_id], [integration_id], so the [INSERT]s of
    [CreateChannel] and [CreateRoute] name missing columns, and it creates
    no [transformations] or [collectors] table.  Re-running it changes
    nothing. *)
Theorem migrate_misses_evolved_columns :
  (forall s, has_column (migrate s) "channels" "fanout_mode" =
             has_column s "channels" "fanout_mode") /\
  has_column (migrate []) "channels" "fanout_mode" = false /\
  has_column (migrate []) "routes" "route_type" = false /\
  insert_columns_ok (migrate []) "channels" CreateChannel_columns = false /\
  insert_columns_ok (migrate []) "routes" CreateRoute_columns = false /\
  assoc "transformations" (migrate []) = None /\
  assoc "collectors" (migrate []) = None /\
  (forall s, migrate (migrate s) = migrate s).
Proof.
  split.
  { intros s; unfold has_column, migrate.
    rewrite !assoc_create; destruct (assoc "channels" s); reflexivity. }
  split; [reflexivity |].
  split; [reflexivity |].
  split; [reflexivity |].
  split; [reflexivity |].
  split; [reflexivity |].
  split; [reflexivity |].
  intros s; unfold migrate at 1.
  assert (Happ : assoc "applications" (migrate s) <> None).
  { unfold migrate; rewrite !assoc_create; destruct (assoc "applications" s); discriminate. }
  assert (Hch : assoc "channels" (migrate s) <> None).
  { unfold migrate; rewrite !assoc_create; destruct (assoc "channels" s); discriminate. }
  assert (Hro : assoc "routes" (migrate s) <> None).
  { unfold migrate; rewrite !assoc_create; destruct (assoc "routes" s); discriminate. }
  unfold create_table_if_not_exists at 3.
  destruct (assoc "applications" (migrate s)) eqn:E1; [| congruence].
  unfold create_table_if_not_exists at 2.
  destruct (assoc "channels" (migrate s)) eqn:E2; [| congruence].
  unfold create_table_if_not_exists.
  destruct (assoc "routes" (migrate s)) eqn:E3; [reflexivity | congruence].
Qed.

(** C8 (as the code has it).  Two calls of [StartRouter] in a row, with
    the store and the broker unchanged in between: the second call
    changes nothing (workers, stoppers, goroutines), and at most one
    worker is launched.  Exactly one is launched when the key
    [router-<routeID>] was not registered and the source resolves (a
    collector exchange or an existing channel) with its fanout
    subscription set up; otherwise the first call returns without
    registering anything. *)
Theorem start_router_twice :
  forall (env : StartEnv) (s : Supervisor) (routeID routeName sourceID : string),
  let s1 := StartRouter env s routeID routeName sourceID in
  StartRouter env s1 routeID routeName sourceID = s1 /\
  length (sv_launched s1) <= S (length (sv_launched s)) /\
  (forall q, sv_workers s !! ("router-" ++ routeID) = None ->
     router_source_queue env routeID routeName sourceID = Some q ->
     sv_launched s1 = (sv_launched s ++ [(("router-" ++ routeID)%string, q)])%list /\
     sv_workers s1 !! ("router-" ++ routeID) = Some true /\
     sv_stoppers s1 !! ("router-" ++ routeID) = Some (length (sv_launched s))) /\
  (router_source_queue env routeID routeName sourceID = None -> s1 = s).
Proof.
  intros env s routeID routeName sourceID s1; subst s1; unfold StartRouter.
  destruct (default false (sv_workers s !! ("router-" ++ routeID))) eqn:Ew.
  - rewrite Ew; split; [reflexivity |]; split; [lia |]; split; [| reflexivity].
    intros q Hn; rewrite Hn in Ew; discriminate.
  - destruct (router_source_queue env routeID routeName sourceID) as [q |] eqn:Eq.
    + simpl. rewrite lookup_insert_eq; simpl.
      split; [reflexivity |].
      split; [rewrite length_app; simpl; lia |].
      split; [| discriminate].
      intros q' _ Hq; injection Hq as <-.
      split; [reflexivity |]; split; simpl; rewrite ?lookup_insert_eq; reflexivity.
    + rewrite ?Ew, ?Eq; split; [reflexivity |]; split; [lia |]; split; [discriminate | reflexivity].
Qed.

(** C8 fails as stated: when the source channel is missing from the
    store, two calls launch no worker at all. *)
Lemma start_router_twice_counterexample :
  sv_launched (StartRouter env_missing_source
                 (StartRouter env_missing_source empty_supervisor "r1" "orders" "c1")
                 "r1" "orders" "c1") = [].
Proof. reflexivity. Qed.

Lemma start_router_twice_witness :
  StartRouter env_with_source (StartRouter env_with_source empty_supervisor "r1" "orders" "c1")
    "r1" "orders" "c1" = StartRouter env_with_source empty_supervisor "r1" "orders" "c1" /\
  sv_launched (StartRouter env_with_source empty_supervisor "r1" "orders" "c1") =
    [("router-r1", "durable_queue_for_src")].
Proof.
  split.
  - exact (proj1 (start_router_twice env_with_source empty_supervisor "r1" "orders" "c1")).
  - apply (proj1 (proj1 (proj2 (proj2 (start_router_twice env_with_source empty_supervisor
             "r1" "orders" "c1"))) "durable_queue_for_src" eq_refl eq_refl)).
Defined.

(** C10: with a healthy broker, [GetOneMessage] on an empty queue returns
    [("", false, nil)] and leaves the queue as it was; on a queue whose
    head is [m] it returns [(m.Body, true, nil)] and, having acknowledged
    [m], leaves the rest of the queue with nothing unacknowledged. *)
Theorem get_one_message_spec (env : GetEnv) (queueName : string) (q : QueueState) :
  ge_channel_err env = None -> ge_get_err env = None -> q_unacked q = [] ->
  (q_ready q = [] -> GetOneMessage env queueName q = (("", false, None), q)) /\
  (forall m rest, q_ready q = m :: rest ->
     GetOneMessage env queueName q = ((d_Body m, true, None), mkQueueState rest [])).
Proof.
  intros Hc Hg Hu; unfold GetOneMessage; rewrite Hc, Hg.
  destruct q as [ready unacked]; simpl in *; subst unacked.
  split.
  - intros ->; reflexivity.
  - intros m rest ->; unfold amqp_get, amqp_ack, amqp_close; simpl.
    reflexivity.
Qed.

Lemma get_one_message_spec_witness :
  GetOneMessage (mkGetEnv None None) "test" (mkQueueState [] []) =
    (("", false, None), mkQueueState [] []) /\
  GetOneMessage (mkGetEnv None None) "test" (mkQueueState [sample_delivery] []) =
    ((d_Body sample_delivery, true, None), mkQueueState [] []).
Proof.
  split.
  - apply (proj1 (get_one_message_spec (mkGetEnv None None) "test" (mkQueueState [] [])
                    eq_refl eq_refl eq_refl)); reflexivity.
  - apply (proj2 (get_one_message_spec (mkGetEnv None None) "test"
                    (mkQueueState [sample_delivery] []) eq_refl eq_refl eq_refl)); reflexivity.
Defined.

(* ------------------------------------------------------------------------- *)
(** ** Further properties of the engine *)

Lemma in_live_from L n C k m :
  In m (live_from L n C k) <->
  (exists q, nth_error L (m - n) = Some (k, q) /\ n <= m) /\ ~ In m C.
Proof.
  revert n; induction L as [| [k' q'] L IH]; intros n; simpl.
  - split; [tauto |]. intros [[q [H _]] _]. destruct (m - n); discriminate.
  - rewrite in_app_iff, IH.
    destruct (String.eqb k' k && negb (existsb (Nat.eqb n) C)) eqn:E; simpl.
    + apply andb_true_iff in E as [Ek Ec]; apply String.eqb_eq in Ek; subst k'.
      apply negb_true_iff in Ec.
      split.
      * intros [[<- | []] | [[q [Hq Hle]] Hc]].
        -- split; [exists q'; rewrite Nat.sub_diag; split; [reflexivity | lia] |].
           intros Hin; assert (existsb (Nat.eqb n) C = true) by
             (apply existsb_exists; exists n; split; [exact Hin | apply Nat.eqb_refl]); congruence.
        -- split; [| exact Hc]. exists q.
           replace (m - n) with (S (m - S n)) by lia; split; [exact Hq | lia].
      * intros [[q [Hq Hle]] Hc].
        destruct (Nat.eq_dec m n) as [-> | Hne]; [left; left; reflexivity |].
        right; split; [| exact Hc]. exists q.
        replace (m - n) with (S (m - S n)) in Hq by lia; split; [exact Hq | lia].
    + split.
      * intros [[] | [[q [Hq Hle]] Hc]]. split; [| exact Hc]. exists q.
        replace (m - n) with (S (m - S n)) by lia; split; [exact Hq | lia].
      * intros [[q [Hq Hle]] Hc].
        destruct (Nat.eq_dec m n) as [-> | Hne].
        -- exfalso. rewrite Nat.sub_diag in Hq; simpl in Hq; injection Hq as -> ->.
           rewrite String.eqb_refl in E; simpl in E.
           apply negb_false_iff in E; apply existsb_exists in E as [x [Hx Ex]].
           apply Nat.eqb_eq in Ex; subst x; contradiction.
        -- right; split; [| exact Hc]. exists q.
           replace (m - n) with (S (m - S n)) in Hq by lia; split; [exact Hq | lia].
Qed.

Lemma live_from_sorted L n C k :
  NoDup (live_from L n C k) /\ Forall (fun m => n <= m) (live_from L n C k).
Proof.
  revert n; induction L as [| [k' q'] L IH]; intros n; simpl.
  - split; constructor.
  - destruct (IH (S n)) as [Hnd Hge].
    destruct (String.eqb k' k && negb (existsb (Nat.eqb n) C)); simpl.
    + split.
      * constructor; [| exact Hnd].
        intros Hin; rewrite Forall_forall in Hge; specialize (Hge n Hin); lia.
      * constructor; [lia |]. eapply Forall_impl; [exact Hge |]; simpl; intros; lia.
    + split; [exact Hnd |]. eapply Forall_impl; [exact Hge |]; simpl; intros; lia.
Qed.

Lemma in_live_workers st k m : In m (live_workers st k) <-> live st m k.
Proof.
  unfold live_workers, live. rewrite in_live_from, Nat.sub_0_r.
  split; intros [[q Hq] Hc]; split; auto.
  - exists q; tauto.
  - exists q; split; [exact Hq | lia].
Qed.

Lemma nth_error_app_last {A} (L : list A) x n :
  nth_error (L ++ [x]) n = if Nat.eqb n (length L) then Some x else nth_error L n.
Proof.
  destruct (Nat.eqb_spec n (length L)) as [-> | Hne].
  - rewrite nth_error_app2, Nat.sub_diag by lia; reflexivity.
  - destruct (Nat.lt_ge_cases n (length L)) as [Hlt | Hge].
    + apply nth_error_app1; exact Hlt.
    + rewrite nth_error_app2 by lia.
      assert (nth_error L n = None) as -> by (apply nth_error_None; lia).
      destruct (n - length L) as [| j] eqn:E; [lia |]. simpl; destruct j; reflexivity.
Qed.

Lemma live_lt st n k : live st n k -> n < length (sv_launched (fst st)).
Proof. intros [[q Hq] _]; apply nth_error_Some; congruence. Qed.

Lemma live_launch s C key q n k :
  (forall c, In c C -> c < length (sv_launched s)) ->
  live (mkSupervisor (<[key := true]> (sv_workers s)) (sv_stoppers s)
          (sv_launched s ++ [(key, q)]), C) n k <->
  live (s, C) n k \/ (n = length (sv_launched s) /\ k = key).
Proof.
  intros Hc; unfold live; simpl; rewrite nth_error_app_last.
  destruct (Nat.eqb_spec n (length (sv_launched s))) as [-> | Hne].
  - assert (nth_error (sv_launched s) (length (sv_launched s)) = None) as -> by
      (apply nth_error_None; lia).
    split.
    + intros [[q' Hq] _]; injection Hq as -> _; right; split; reflexivity.
    + intros [[[q' Hq] _] | [_ ->]]; [discriminate |].
      split; [exists q; reflexivity |]. intros Hin; specialize (Hc _ Hin); lia.
  - split; [intros H; left; exact H |]. intros [H | [Habs _]]; [exact H | lia].
Qed.

Lemma launch_inv s C key q (stoppers' : gmap string nat) :
  sv_inv (s, C) ->
  sv_workers s !! key <> Some true ->
  (forall k g, stoppers' !! k = Some g ->
     (k = key /\ g = length (sv_launched s)) \/ sv_stoppers s !! k = Some g) ->
  (forall r, key = ("router-" ++ r)%string -> is_Some (stoppers' !! key)) ->
  (forall k g, sv_stoppers s !! k = Some g -> k <> key -> stoppers' !! k = Some g) ->
  sv_inv (mkSupervisor (<[key := true]> (sv_workers s)) stoppers'
            (sv_launched s ++ [(key, q)]), C).
Proof.
  intros [Itrue Ireg Iuniq Istop Icanc Irs] Hnot Hstop Hrk Hkeep; simpl in *.
  assert (Hl : forall st' n k, sv_launched (fst st') = (sv_launched s ++ [(key, q)])%list ->
            snd st' = C ->
            live st' n k <-> live (s, C) n k \/ (n = length (sv_launched s) /\ k = key)).
  { intros [s' C'] n k Hs HC; simpl in Hs, HC; subst C'.
    rewrite <- (live_launch s C key q n k Icanc). unfold live; simpl; rewrite Hs; reflexivity. }
  assert (Hold : forall n k, live (s, C) n k -> k <> key).
  { intros n k Hlv ->. apply Hnot, Ireg. exists n; exact Hlv. }
  assert (Hltn : forall n k, live (s, C) n k -> n < length (sv_launched s)).
  { intros n k Hlv; exact (live_lt (s, C) n k Hlv). }
  split; simpl.
  - intros k b Hk. destruct (decide (k = key)) as [-> | Hne].
    + rewrite lookup_insert_eq in Hk; congruence.
    + rewrite lookup_insert_ne in Hk by congruence; exact (Itrue k b Hk).
  - intros k. setoid_rewrite Hl; [| reflexivity | reflexivity].
    destruct (decide (k = key)) as [-> | Hne].
    + rewrite lookup_insert_eq. split; [intros _; exists (length (sv_launched s)); right; split; reflexivity | reflexivity].
    + rewrite lookup_insert_ne by congruence. rewrite Ireg.
      split; [intros [n Hn]; exists n; left; exact Hn |].
      intros [n [Hn | [_ Hk]]]; [exists n; exact Hn | congruence].
  - intros n m k Hn Hm. rewrite Hl in Hn, Hm by reflexivity.
    destruct Hn as [Hn | [-> ->]], Hm as [Hm | [-> Hk]].
    + exact (Iuniq n m k Hn Hm).
    + exfalso; exact (Hold n k Hn Hk).
    + exfalso; exact (Hold m key Hm eq_refl).
    + reflexivity.
  - intros k g Hk. rewrite Hl by reflexivity.
    destruct (Hstop k g Hk) as [[-> ->] | Ho]; [right; split; reflexivity | left; exact (Istop k g Ho)].
  - intros c Hin. rewrite length_app; simpl. specialize (Icanc c Hin); lia.
  - intros r Hr. destruct (decide (("router-" ++ r)%string = key)) as [<- | Hne].
    + exact (Hrk r eq_refl).
    + rewrite lookup_insert_ne in Hr by congruence.
      destruct (Irs r Hr) as [g Hg]. exists g; exact (Hkeep _ g Hg Hne).
Qed.

Lemma live_stop s C g n k :
  live (s, g :: C) n k <-> live (s, C) n k /\ n <> g.
Proof.
  unfold live; simpl. split.
  - intros [Hq Hn]; split; [split; [exact Hq | tauto] | intros ->; tauto].
  - intros [[Hq Hn] Hg]; split; [exact Hq |]. intros [-> | H]; [congruence | tauto].
Qed.

Lemma stop_inv s C routeID :
  sv_inv (s, C) ->
  sv_inv (fst (StopRouter s routeID), (opt_to_list (snd (StopRouter s routeID)) ++ C)%list).
Proof.
  intros I; unfold StopRouter.
  destruct (sv_stoppers s !! ("router-" ++ routeID)) as [g |] eqn:Eg; [| exact I].
  destruct I as [Itrue Ireg Iuniq Istop Icanc Irs]; simpl in *.
  set (key := ("router-" ++ routeID)%string) in *.
  assert (Hg : live (s, C) g key) by exact (Istop key g Eg).
  assert (Hl : forall n k, live (mkSupervisor (delete key (sv_workers s)) (delete key (sv_stoppers s))
                  (sv_launched s), g :: C) n k <-> live (s, C) n k /\ k <> key).
  { intros n k. change (live (s, g :: C) n k <-> live (s, C) n k /\ k <> key).
    rewrite live_stop. split.
    - intros [Hlv Hng]; split; [exact Hlv |]. intros ->; apply Hng; exact (Iuniq n g key Hlv Hg).
    - intros [Hlv Hk]; split; [exact Hlv |]. intros ->; apply Hk.
      destruct Hlv as [[q1 H1] _], Hg as [[q2 H2] _]; simpl in *; congruence. }
  split; simpl.
  - intros k b Hk. destruct (decide (k = key)) as [-> | Hne].
    + rewrite lookup_delete_eq in Hk; discriminate.
    + rewrite lookup_delete_ne in Hk by congruence; exact (Itrue k b Hk).
  - intros k. setoid_rewrite Hl. destruct (decide (k = key)) as [-> | Hne].
    + rewrite lookup_delete_eq. split; [discriminate | intros [n [_ Hk]]; congruence].
    + rewrite lookup_delete_ne by congruence. rewrite Ireg.
      split; [intros [n Hn]; exists n; split; [exact Hn | exact Hne] | intros [n [Hn _]]; exists n; exact Hn].
  - intros n m k Hn Hm. rewrite Hl in Hn, Hm. exact (Iuniq n m k (proj1 Hn) (proj1 Hm)).
  - intros k g' Hk. rewrite Hl. destruct (decide (k = key)) as [-> | Hne].
    + rewrite lookup_delete_eq in Hk; discriminate.
    + rewrite lookup_delete_ne in Hk by congruence. split; [exact (Istop k g' Hk) | exact Hne].
  - intros c [<- | Hin]; [exact (live_lt (s, C) g key Hg) | exact (Icanc c Hin)].
  - intros r Hr; cbn [fst sv_workers sv_stoppers] in Hr |- *. destruct (decide (("router-" ++ r)%string = key)) as [Heq | Hne].
    + rewrite Heq, lookup_delete_eq in Hr; discriminate.
    + rewrite lookup_delete_ne in Hr by congruence. rewrite lookup_delete_ne by congruence. exact (Irs r Hr).
Qed.

Lemma start_router_inv env s C routeID routeName sourceID :
  sv_inv (s, C) -> sv_inv (StartRouter env s routeID routeName sourceID, C).
Proof.
  intros I; unfold StartRouter.
  destruct (default false (sv_workers s !! ("router-" ++ routeID))) eqn:Ew; [exact I |].
  destruct (router_source_queue env routeID routeName sourceID) as [q |]; [| exact I].
  apply launch_inv; [exact I | | | |].
  - intros H; rewrite H in Ew; discriminate.
  - intros k g Hk. destruct (decide (k = ("router-" ++ routeID)%string)) as [-> | Hne].
    + rewrite lookup_insert_eq in Hk; injection Hk as <-; left; split; reflexivity.
    + rewrite lookup_insert_ne in Hk by congruence; right; exact Hk.
  - intros r _. rewrite lookup_insert_eq. eexists; reflexivity.
  - intros k g Hk Hne. rewrite lookup_insert_ne by congruence. exact Hk.
Qed.

Lemma sv_step_inv st op : sv_inv st -> sv_inv (sv_step st op).
Proof.
  destruct st as [s C]; intros I; destruct op as [env id name src | id | env id name src | b | b]; simpl.
  - apply start_router_inv; exact I.
  - pose proof (stop_inv s C id I) as H.
    destruct (StopRouter s id) as [s' c]; exact H.
  - unfold RestartRouter. pose proof (stop_inv s C id I) as H.
    destruct (StopRouter s id) as [s' c]; simpl in *. apply start_router_inv; exact H.
  - unfold StartInboundForwarder.
    destruct (default false (sv_workers s !! ("inbound-" ++ b))) eqn:Ew; [exact I |].
    apply launch_inv; [exact I | intros H; rewrite H in Ew; discriminate | intros k g Hk; right; exact Hk
      | intros r Hr; discriminate Hr | intros k g Hk _; exact Hk].
  - unfold StartOutboundCollector.
    destruct (default false (sv_workers s !! ("outbound-" ++ b))) eqn:Ew; [exact I |].
    apply launch_inv; [exact I | intros H; rewrite H in Ew; discriminate | intros k g Hk; right; exact Hk
      | intros r Hr; discriminate Hr | intros k g Hk _; exact Hk].
Qed.


Lemma empty_inv : sv_inv (empty_supervisor, []).
Proof.
  split; simpl.
  - intros k b H; rewrite lookup_empty in H; discriminate.
  - intros k; rewrite lookup_empty; split; [discriminate |].
    intros [n [[q Hq] _]]; destruct n; discriminate.
  - intros n m k [[q Hq] _]; destruct n; discriminate.
  - intros k g H; rewrite lookup_empty in H; discriminate.
  - intros c [].
  - intros r H; rewrite lookup_empty in H; discriminate.
Qed.

Lemma inv_count st key :
  sv_inv st ->
  length (live_workers st key) = if default false (sv_workers (fst st) !! key) then 1 else 0.
Proof.
  intros I. destruct (live_from_sorted (sv_launched (fst st)) 0 (snd st) key) as [Hnd _].
  fold (live_workers st key) in Hnd.
  destruct (sv_workers (fst st) !! key) as [b |] eqn:Ew; simpl.
  - assert (b = true) as -> by exact (inv_true st I key b Ew).
    destruct (proj1 (inv_reg st I key) Ew) as [n Hn].
    assert (Hall : forall m, In m (live_workers st key) <-> m = n).
    { intros m; rewrite in_live_workers; split.
      - intros Hm; exact (inv_uniq st I m n key Hm Hn).
      - intros ->; exact Hn. }
    destruct (live_workers st key) as [| a [| b' l]] eqn:E.
    + exfalso; apply (proj2 (Hall n) eq_refl).
    + reflexivity.
    + exfalso. inversion Hnd as [| ? ? Hni Hnd']; subst.
      apply Hni, list_elem_of_In. left. rewrite (proj1 (Hall a) (or_introl eq_refl)), (proj1 (Hall b') (or_intror (or_introl eq_refl))). reflexivity.
  - destruct (live_workers st key) as [| a l] eqn:E; [reflexivity | exfalso].
    assert (Ha : live st a key) by (apply in_live_workers; rewrite E; left; reflexivity).
    assert (sv_workers (fst st) !! key = Some true) by (apply (inv_reg st I); exists a; exact Ha).
    congruence.
Qed.



Lemma settles_nack b : settles [ENack b].
Proof.
  exists [], (ENack b); simpl; repeat split; try discriminate; intros; contradiction.
Qed.

Lemma settles_republish broker m ex :
  settles (let (eff, ok) := republishAsDurable broker m ex in
           (eff ++ [if ok then EAck else ENack true])%list).
Proof.
  unfold republishAsDurable; destruct (broker ex _).
  - apply settles_nack.
  - eexists [_], _; simpl; repeat split; try discriminate.
    intros ? ? ? ? [H | []]; injection H as _ _ _ <-; reflexivity.
  - eexists [_], _; simpl; repeat split.
    + intros _; left; do 3 eexists; left; reflexivity.
    + intros ? ? ? ? [H | []]; injection H as _ _ _ <-; reflexivity.
Qed.

Lemma settles_exec r l : settles l -> settles (EExec r :: l).
Proof.
  intros [pre [s [-> [Hs [Hpre [Hack Hpub]]]]]].
  exists (EExec r :: pre), s; simpl; repeat split; auto.
  - intros Ha; destruct (Hack Ha) as [[ex [rk [p H]]] | H]; [left; exists ex, rk, p | right]; right; exact H.
  - intros ex rk p ok [H | H]; [discriminate | exact (Hpub ex rk p ok H)].
Qed.

Lemma settles_filtered : settles [EExec (ROk None); EAck].
Proof.
  exists [EExec (ROk None)], EAck; simpl; repeat split.
  - intros _; right; left; reflexivity.
  - intros ? ? ? ? [H | []]; discriminate.
Qed.

Lemma list_filter_app {A} (f : A -> bool) (l1 l2 : list A) :
  List.filter f (l1 ++ l2) = (List.filter f l1 ++ List.filter f l2)%list.
Proof. induction l1 as [| x l1 IH]; simpl; [reflexivity |]; destruct (f x); simpl; rewrite IH; reflexivity. Qed.

Lemma settles_count l : settles l -> length (List.filter is_settle l) = 1.
Proof.
  intros [pre [s [-> [Hs [Hpre _]]]]].
  rewrite list_filter_app; simpl; rewrite Hs, length_app; simpl.
  assert (List.filter is_settle pre = []) as ->; [| reflexivity].
  induction pre as [| e pre IH]; [reflexivity |]; simpl in *.
  apply andb_true_iff in Hpre as [He Hpre]; destruct (is_settle e); [discriminate | exact (IH Hpre)].
Qed.

(** A single delivery is settled exactly once by [route_one]. *)
Lemma route_one_settles env routeID d : settles (route_one env routeID d).
Proof.
  unfold route_one.
  destruct (fetch_route _) as [e | [route |]]; try apply settles_nack.
  destruct (r_DestinationChannelID route) as [destID |]; try apply settles_nack.
  destruct (String.eqb destID ""); try apply settles_nack.
  destruct (re_GetChannelByID env destID) as [e | [destChannel |]]; try apply settles_nack.
  destruct (String.eqb (r_RouteType route) "transform"); [| apply settles_republish].
  destruct (is_empty_opt (r_TransformationID route)); try apply settles_nack.
  destruct (re_GetTransformationByID env _) as [e | [transform |]]; try apply settles_nack.
  destruct (re_unmarshal env (d_Body d)) as [bodyMap |]; try apply settles_nack.
  destruct (re_ExecuteScript env _ _ _ _) as [e | [tm |]].
  - apply settles_exec, settles_nack.
  - apply settles_exec. destruct (re_marshal env (tm_Body tm)); [apply settles_republish | apply settles_nack].
  - apply settles_filtered.
Qed.

Lemma route_loop_settles_each env routeID ds :
  length (List.filter is_settle (routeMessageLoop env routeID ds)) = length ds.
Proof.
  unfold routeMessageLoop; induction ds as [| d ds IH]; [reflexivity |]; simpl.
  rewrite list_filter_app, length_app, IH, (settles_count _ (route_one_settles env routeID d)); reflexivity.
Qed.

Lemma collect_one_shape broker ex d :
  collect_one broker ex d =
    match broker ex (publishing_of d Persistent) with
    | PubChanErr => [ENack true]
    | PubErr => [EPublish ex "" (publishing_of d Persistent) false; ENack true]
    | PubOk => [EPublish ex "" (publishing_of d Persistent) true; EAck]
    end.
Proof. unfold collect_one, republishAsDurable; destruct (broker ex _); reflexivity. Qed.

Lemma route_messages_counts broker ex ds :
  length (List.filter is_ack (routeMessages broker ex ds)) =
    length (List.filter (published_ok broker ex) ds) /\
  length (List.filter is_requeue (routeMessages broker ex ds)) =
    length ds - length (List.filter (published_ok broker ex) ds) /\
  ~ In (ENack false) (routeMessages broker ex ds).
Proof.
  unfold routeMessages; induction ds as [| d ds [IH1 [IH2 IH3]]]; simpl; [repeat split; auto |].
  rewrite !list_filter_app, !length_app, IH1, IH2.
  assert (Hle : length (List.filter (published_ok broker ex) ds) <= length ds).
  { clear; induction ds as [| x ds IH]; simpl; [lia |]; destruct (published_ok broker ex x); simpl; lia. }
  assert (Hd : published_ok broker ex d =
            match broker ex (publishing_of d Persistent) with PubOk => true | _ => false end)
    by reflexivity.
  rewrite collect_one_shape, Hd.
  destruct (broker ex (publishing_of d Persistent)); simpl;
    (split; [| split]); try lia;
    intros [H | H]; try discriminate; try (destruct H as [H | H]; try discriminate); exact (IH3 H).
Qed.

(** X4: the outbound collector and the legacy router ack exactly the
    deliveries whose publish succeeded, requeue all the others, and never
    dead-letter (nack without requeue) a delivery. *)
Theorem outbound_and_legacy_router_never_drop broker :
  (forall baseName ds,
     let ex := ("durable_exchange_for_" ++ baseName)%string in
     length (List.filter is_ack (collectMessages broker baseName ds)) =
       length (List.filter (published_ok broker ex) ds) /\
     length (List.filter is_requeue (collectMessages broker baseName ds)) =
       length ds - length (List.filter (published_ok broker ex) ds) /\
     ~ In (ENack false) (collectMessages broker baseName ds)) /\
  (forall destExchange ds,
     length (List.filter is_ack (routeMessages broker destExchange ds)) =
       length (List.filter (published_ok broker destExchange) ds) /\
     length (List.filter is_requeue (routeMessages broker destExchange ds)) =
       length ds - length (List.filter (published_ok broker destExchange) ds) /\
     ~ In (ENack false) (routeMessages broker destExchange ds)).
Proof.
  split; [intros baseName ds ex | intros destExchange ds]; apply route_messages_counts.
Qed.

Lemma retry_get_route_some get n : forall i last r,
  (forall r', last <> SOk (Some r')) ->
  retry_get_route get i n last = SOk (Some r) <->
  exists j, i <= j < i + n /\ get j = SOk (Some r) /\
            forall k r', i <= k < j -> get k <> SOk (Some r').
Proof.
  induction n as [| n IH]; intros i last r Hlast; simpl.
  - split; [intros H; exfalso; exact (Hlast r H) | intros [j [Hj _]]; lia].
  - destruct (get i) as [e | [r0 |]] eqn:Ei.
    1, 3: rewrite IH by (intros r' H'; discriminate);
      split; intros [j [Hj [Hg Hk]]];
      [ exists j; split; [lia |]; split; [exact Hg |]; intros k r' Hk';
        destruct (Nat.eq_dec k i) as [-> | Hne]; [rewrite Ei; discriminate | apply Hk; lia]
      | assert (j <> i) by (intros ->; rewrite Ei in Hg; discriminate);
        exists j; split; [lia |]; split; [exact Hg |]; intros k r' Hk'; apply Hk; lia ].
    + split.
      * intros H; injection H as <-. exists i; split; [lia |]; split; [exact Ei | intros; lia].
      * intros [j [Hj [Hg Hk]]].
        destruct (Nat.eq_dec j i) as [-> | Hne]; [congruence |].
        exfalso; apply (Hk i r0); [lia | exact Ei].
Qed.

Lemma retry_get_route_none get n : forall i last,
  (forall k r', i <= k < i + n -> get k <> SOk (Some r')) ->
  retry_get_route get i n last = match n with O => last | S _ => get (i + n - 1) end.
Proof.
  induction n as [| n IH]; intros i last Hk; simpl; [reflexivity |].
  destruct (get i) as [e | [r0 |]] eqn:Ei.
  1, 3: rewrite IH by (intros k r' Hk'; apply Hk; lia);
    destruct n; [replace (i + 1 - 1) with i by lia; congruence |];
    f_equal; lia.
  exfalso; apply (Hk i r0); [lia | exact Ei].
Qed.

(** X5: [fetch_route] returns the first of its three attempts that finds the
    route, and when none of the three finds it, it returns the result of the
    last attempt. *)
Theorem fetch_route_first_row get :
  (forall r, fetch_route get = SOk (Some r) <->
     exists i, i < 3 /\ get i = SOk (Some r) /\ forall j r', j < i -> get j <> SOk (Some r')) /\
  ((forall i r, i < 3 -> get i <> SOk (Some r)) -> fetch_route get = get 2).
Proof.
  split.
  - intros r; unfold fetch_route.
    rewrite retry_get_route_some by (intros r' H; discriminate).
    split; intros [j [Hj [Hg Hk]]]; exists j; split; [lia | | lia |]; split; auto;
      intros k r' Hk'; apply Hk; lia.
  - intros H; unfold fetch_route; rewrite retry_get_route_none; [reflexivity |].
    intros k r' Hk'; apply H; lia.
Qed.

(** X6: when the route's script fails, [route_one] does nothing but
    dead-letter the delivery: its effects are the failed execution followed
    by a nack without requeue. *)
Theorem route_one_script_error_dead_letters env routeID d e :
  In (EExec (RErr e)) (route_one env routeID d) ->
  route_one env routeID d = [EExec (RErr e); ENack false].
Proof.
  unfold route_one.
  destruct (fetch_route _) as [e' | [route |]]; simpl; try absurd_in.
  destruct (r_DestinationChannelID route) as [destID |]; simpl; try absurd_in.
  destruct (String.eqb destID ""); simpl; try absurd_in.
  destruct (re_GetChannelByID env destID) as [e' | [destChannel |]]; simpl; try absurd_in.
  destruct (String.eqb (r_RouteType route) "transform").
  2:{ intros H; apply publish_tail_no_exec in H; contradiction. }
  destruct (is_empty_opt (r_TransformationID route)); simpl; try absurd_in.
  destruct (re_GetTransformationByID env _) as [e' | [transform |]]; simpl; try absurd_in.
  destruct (re_unmarshal env (d_Body d)) as [bodyMap |]; simpl; try absurd_in.
  destruct (re_ExecuteScript env _ _ _ _) as [e' | [tm |]] eqn:E; simpl.
  - intros [H | [H | H]]; [injection H as ->; reflexivity | discriminate | contradiction].
  - intros [H | H]; [discriminate |].
    destruct (re_marshal env (tm_Body tm)); simpl in H.
    + apply publish_tail_no_exec in H; contradiction.
    + intuition discriminate.
  - intros [H | [H | H]]; discriminate || contradiction.
Qed.

Lemma fromStarlarkValue_dict items :
  fromStarlarkValue (SDict items) =
  match sl_dict_to_map items [] with Some m => Some (GMap m) | None => None end.
Proof. reflexivity. Qed.

Lemma fromStarlarkValue_list l :
  fromStarlarkValue (SList l) = match sl_list_to_list l with Some gl => Some (GList gl) | None => None end.
Proof. reflexivity. Qed.

Lemma fromStarlarkValue_struct fs :
  fromStarlarkValue (SStruct fs) =
  match sl_struct_to_map fs [] with Some m => Some (GMap m) | None => None end.
Proof. reflexivity. Qed.

Lemma sl_list_to_list_bad l v :
  In v l -> fromStarlarkValue v = None -> sl_list_to_list l = None.
Proof.
  induction l as [| x l IH]; simpl; [contradiction |].
  intros [-> | Hin] Hv; [rewrite Hv; reflexivity |].
  rewrite (IH Hin Hv); destruct (fromStarlarkValue x); reflexivity.
Qed.

Lemma sl_bad_from v : sl_bad v -> fromStarlarkValue v = None.
Proof.
  induction 1 as [z Hz | l | t | items k v Hin Hk | items k v Hin Hv IH | l v Hin Hv IH
                  | fs f v Hin Hv IH].
  - simpl. destruct ((int64_min <=? z)%Z && (z <=? int64_max)%Z) eqn:E; [| reflexivity].
    exfalso; apply Hz; apply andb_true_iff in E as [E1 E2]; apply Z.leb_le in E1, E2; lia.
  - reflexivity.
  - reflexivity.
  - rewrite fromStarlarkValue_dict.
    assert (forall acc, sl_dict_to_map items acc = None) as ->; [| reflexivity].
    induction items as [| [k' v'] items IHi]; intros acc; [contradiction |].
    destruct Hin as [E | Hin].
    + injection E as -> ->. destruct k; try reflexivity. exfalso; eapply Hk; reflexivity.
    + simpl. destruct k'; try reflexivity. destruct (fromStarlarkValue v'); [apply IHi; exact Hin | reflexivity].
  - rewrite fromStarlarkValue_dict.
    assert (forall acc, sl_dict_to_map items acc = None) as ->; [| reflexivity].
    induction items as [| [k' v'] items IHi]; intros acc; [contradiction |].
    simpl. destruct Hin as [E | Hin].
    + injection E as -> ->. destruct k; try reflexivity. rewrite IH; reflexivity.
    + destruct k'; try reflexivity. destruct (fromStarlarkValue v'); [apply IHi; exact Hin | reflexivity].
  - rewrite fromStarlarkValue_list, (sl_list_to_list_bad l v Hin IH); reflexivity.
  - rewrite fromStarlarkValue_struct.
    assert (forall acc, sl_struct_to_map fs acc = None) as ->; [| reflexivity].
    induction fs as [| [f' v'] fs IHi]; intros acc; [contradiction |].
    simpl. destruct Hin as [E | Hin].
    + injection E as -> ->. rewrite IH; reflexivity.
    + destruct (fromStarlarkValue v'); [apply IHi; exact Hin | reflexivity].
Qed.

(** X7: a Starlark transform whose result holds, at any depth, a value the
    host cannot convert back to a Go value (a tuple, an int beyond int64,
    a non-string dict key, a value of an unsupported kind) makes [Execute]
    fail with the error "transform result must be a dict, got <type>",
    naming the type of the whole result. *)
Theorem starlark_transform_bad_result sl script body headers sb sh g f v :
  convertMapToStarlarkDict body = Some sb ->
  convertMapToStarlarkDict headers = Some sh ->
  sl starlark_predeclared script = SLGlobals g ->
  assoc "transform" g = Some (SLFunc f) ->
  f [sb; sh] = SCallOk v ->
  sl_bad v ->
  starlark_execute sl script body headers =
    RErr ("transform result must be a dict, got " ++ sl_type v).
Proof.
  intros Hb Hh Hg Ht Hf Hv.
  unfold starlark_execute; rewrite Hb, Hh, Hg, Ht, Hf.
  pose proof (sl_bad_from v Hv) as Hn.
  destruct v; try (inversion Hv; fail); unfold convertStarlarkDictToMap; try rewrite Hn; reflexivity.
Qed.

Lemma starlark_transform_bad_result_witness :
  starlark_execute
    (starlark_transform_returning
       (SDict [(SString "body", SDict [(SString "t", STuple [SInt 1; SInt 2])])]))
    "def transform(body, headers): ..." [] [] = RErr "transform result must be a dict, got dict".
Proof.
  refine (eq_trans (starlark_transform_bad_result
    (starlark_transform_returning
       (SDict [(SString "body", SDict [(SString "t", STuple [SInt 1; SInt 2])])]))
    "def transform(body, headers): ..." [] [] (SDict []) (SDict []) _ _
    (SDict [(SString "body", SDict [(SString "t", STuple [SInt 1; SInt 2])])])
    eq_refl eq_refl eq_refl eq_refl eq_refl _) eq_refl).
  eapply bad_dict_val; [left; reflexivity |].
  eapply bad_dict_val; [left; reflexivity |].
  apply bad_tuple.
Defined.

Lemma route_one_script_error_dead_letters_witness :
  route_one (sample_env (sample_route (Some "c2") "transform") "starlark"
               (fun _ _ _ _ => RErr "boom")) "r1" sample_delivery = [EExec (RErr "boom"); ENack false].
Proof.
  apply route_one_script_error_dead_letters. vm_compute. left; reflexivity.
Defined.

Lemma toStarlarkValue_map m :
  toStarlarkValue (GMap m) = match g_map_to_items m with Some it => Some (SDict it) | None => None end.
Proof. reflexivity. Qed.

Lemma toStarlarkValue_list l :
  toStarlarkValue (GList l) = match g_list_to_list l with Some sl => Some (SList sl) | None => None end.
Proof. reflexivity. Qed.

Lemma gmap_get_set_eq m k v : gmap_get (gmap_set m k v) k = Some v.
Proof. unfold gmap_set; simpl; rewrite String.eqb_refl; reflexivity. Qed.

Lemma gmap_get_set_ne m k k' v : k' <> k -> gmap_get (gmap_set m k v) k' = gmap_get m k'.
Proof.
  intros Hne; unfold gmap_set; simpl.
  apply String.eqb_neq in Hne; rewrite Hne.
  induction m as [| [k1 v1] m IH]; simpl; [reflexivity |].
  destruct (String.eqb k1 k) eqn:E1; simpl.
  - apply String.eqb_eq in E1; subst k1. rewrite Hne; exact IH.
  - destruct (String.eqb k' k1); [reflexivity | exact IH].
Qed.

Lemma gmap_get_not_in m k : ~ In k (map fst m) -> gmap_get m k = None.
Proof.
  induction m as [| [k1 v1] m IH]; simpl; [reflexivity |].
  intros Hn. destruct (String.eqb_spec k k1) as [-> | Hne]; [exfalso; tauto |].
  apply IH; tauto.
Qed.

Lemma round_trip_map m :
  Forall (fun kv => round_trips (snd kv)) m ->
  NoDup (map fst m) -> Forall (fun kv => gwf (snd kv)) m ->
  exists items, g_map_to_items m = Some items /\
  forall acc, exists r, sl_dict_to_map items acc = Some r /\
    (forall k, In k (map fst m) -> option_Forall2 gequiv (gmap_get r k) (gmap_get m k)) /\
    (forall k, ~ In k (map fst m) -> gmap_get r k = gmap_get acc k).
Proof.
  induction m as [| [k x] m IH]; intros Hrt Hnd Hwf.
  - exists []; split; [reflexivity |]. intros acc; exists acc; split; [reflexivity |].
    split; [intros k [] | intros; reflexivity].
  - inversion Hrt as [| ? ? Hx Hrt']; subst.
    inversion Hwf as [| ? ? Hwx Hwf']; subst.
    simpl in Hnd; apply NoDup_cons in Hnd as [Hk Hnd].
    rewrite list_elem_of_In in Hk.
    destruct (Hx Hwx) as [sx [gx [Hto [Hfrom Heq]]]]; simpl in Hto, Hfrom.
    destruct (IH Hrt' Hnd Hwf') as [items [Hitems Hall]].
    exists ((SString k, sx) :: items); simpl; rewrite Hto, Hitems; split; [reflexivity |].
    intros acc; simpl; rewrite Hfrom.
    destruct (Hall (gmap_set acc k gx)) as [r [Hr [Hin Hout]]].
    exists r; split; [exact Hr |]; split.
    + intros k' [<- | Hk']; simpl.
      * rewrite (Hout k Hk), gmap_get_set_eq, String.eqb_refl. constructor; exact Heq.
      * destruct (String.eqb_spec k' k) as [-> | Hne]; [contradiction |]. apply Hin; exact Hk'.
    + intros k' Hk'. simpl in Hk'.
      rewrite Hout by tauto. apply gmap_get_set_ne; intros ->; tauto.
Qed.

Lemma round_trip_list l :
  Forall round_trips l -> Forall gwf l ->
  exists sl gl, g_list_to_list l = Some sl /\ sl_list_to_list sl = Some gl /\ Forall2 gequiv gl l.
Proof.
  induction l as [| x l IH]; intros Hrt Hwf.
  - exists [], []; repeat split; constructor.
  - inversion Hrt as [| ? ? Hx Hrt']; subst; inversion Hwf as [| ? ? Hwx Hwf']; subst.
    destruct (Hx Hwx) as [sx [gx [Hto [Hfrom Heq]]]].
    destruct (IH Hrt' Hwf') as [sl [gl [H1 [H2 H3]]]].
    exists (sx :: sl), (gx :: gl); simpl; rewrite Hto, H1; simpl; rewrite Hfrom, H2.
    repeat split; constructor; assumption.
Qed.

Lemma round_trip v : round_trips v.
Proof.
  induction v as [| b | s | z | fb | m IHm | l IHl | o] using gval_ind_nested; intros Hwf.
  - exists SNone, GNil; repeat split; constructor.
  - exists (SBool b), (GBool b); repeat split; constructor.
  - exists (SString s), (GStr s); repeat split; constructor.
  - inversion Hwf as [| | | ? Hz | | |]; subst.
    exists (SInt z), (GInt z); split; [reflexivity |]; split; [| constructor].
    simpl. destruct Hz as [H1 H2]. apply Z.leb_le in H1, H2. rewrite H1, H2; reflexivity.
  - exists (SFloat fb), (GFloat fb); repeat split; constructor.
  - inversion Hwf as [| | | | | ? Hnd Hall |]; subst.
    destruct (round_trip_map m IHm Hnd Hall) as [items [Hitems Hr]].
    destruct (Hr []) as [r [Hd [Hin Hout]]].
    exists (SDict items), (GMap r).
    rewrite toStarlarkValue_map, Hitems, fromStarlarkValue_dict, Hd.
    split; [reflexivity |]; split; [reflexivity |].
    constructor; intros k.
    destruct (in_dec string_dec k (map fst m)) as [Hk | Hk]; [exact (Hin k Hk) |].
    rewrite (Hout k Hk), (gmap_get_not_in m k Hk); simpl; constructor.
  - inversion Hwf as [| | | | | | ? Hall]; subst.
    destruct (round_trip_list l IHl Hall) as [sl [gl [H1 [H2 H3]]]].
    exists (SList sl), (GList gl).
    rewrite toStarlarkValue_list, H1, fromStarlarkValue_list, H2.
    repeat split; constructor; exact H3.
  - inversion Hwf.
Qed.

(** X8: every well-formed Go value (nil, bool, string, int64, float64, and
    string-keyed maps and lists of such values) survives the round trip to
    a Starlark value and back, up to the order of map entries. *)
Theorem starlark_value_round_trip v :
  gwf v ->
  exists s v', toStarlarkValue v = Some s /\ fromStarlarkValue s = Some v' /\ gequiv v' v.
Proof. exact (round_trip v). Qed.

Lemma starlark_value_round_trip_witness :
  exists s v', toStarlarkValue (GMap [("a", GInt 1); ("b", GList [GStr "x"; GNil])]) = Some s /\
    fromStarlarkValue s = Some v' /\ gequiv v' (GMap [("a", GInt 1); ("b", GList [GStr "x"; GNil])]).
Proof.
  apply starlark_value_round_trip.
  constructor.
  - simpl. repeat constructor; simpl; set_solver.
  - repeat constructor; unfold int64_min, int64_max; lia.
Defined.

(** X9: for a body and headers made of well-formed Go values (nil, bool,
    string, int64, float64, maps with distinct keys and lists: every value
    [json.Unmarshal] produces), a Starlark transform returning
    [{"body": body}] leaves the message unchanged: the body comes back equal
    up to entry order and the headers are kept. *)
Theorem starlark_identity_transform_keeps_body sl script body headers g f :
  gwf (GMap body) -> gwf (GMap headers) ->
  sl starlark_predeclared script = SLGlobals g ->
  assoc "transform" g = Some (SLFunc f) ->
  (forall sb sh, f [sb; sh] = SCallOk (SDict [(SString "body", sb)])) ->
  exists tb, starlark_execute sl script body headers = ROk (Some (mkTM tb headers)) /\
             gequiv (GMap tb) (GMap body).
Proof.
  intros Hb Hh Hg Ht Hf.
  destruct (round_trip _ Hb) as [sb [vb [Htb [Hfb Heqb]]]].
  destruct (round_trip _ Hh) as [sh [vh [Hth [Hfh Heqh]]]].
  inversion Heqb as [| | | | | tb m2 Hk | ]; subst.
  exists tb; split; [| exact Heqb].
  unfold starlark_execute, convertMapToStarlarkDict; rewrite Htb, Hth, Hg, Ht, Hf.
  unfold convertStarlarkDictToMap. rewrite fromStarlarkValue_dict; simpl.
  rewrite Hfb; reflexivity.
Qed.

Lemma starlark_identity_transform_keeps_body_witness :
  exists tb,
    starlark_execute (fun _ _ => SLGlobals [("transform", SLFunc (fun args =>
        match args with [sb; _] => SCallOk (SDict [(SString "body", sb)]) | _ => SCallErr "arity" end))])
      "def transform(body, headers): return {'body': body}"
      [("total", GFloat 4617315517961601024); ("id", GStr "o-1")] [("x-trace", GStr "t")] =
      ROk (Some (mkTM tb [("x-trace", GStr "t")])) /\
    gequiv (GMap tb) (GMap [("total", GFloat 4617315517961601024); ("id", GStr "o-1")]).
Proof.
  apply starlark_identity_transform_keeps_body with
    (g := [("transform", SLFunc (fun args =>
        match args with [sb; _] => SCallOk (SDict [(SString "body", sb)]) | _ => SCallErr "arity" end))])
    (f := fun args =>
        match args with [sb; _] => SCallOk (SDict [(SString "body", sb)]) | _ => SCallErr "arity" end).
  - constructor; [simpl; repeat constructor; set_solver | repeat constructor].
  - constructor; [simpl; repeat constructor; set_solver | repeat constructor].
  - reflexivity.
  - reflexivity.
  - intros sb sh; reflexivity.
Defined.

Lemma prefix_refl s : String.prefix s s = true.
Proof. induction s as [| c s IH]; simpl; [reflexivity |]. destruct (Ascii.ascii_dec c c); [exact IH | congruence]. Qed.

Lemma str_app_assoc (a b c : string) : (a ++ (b ++ c) = (a ++ b) ++ c)%string.
Proof. induction a as [| x a IH]; [reflexivity |]. change (String x (a ++ (b ++ c)) = String x ((a ++ b) ++ c))%string. rewrite IH. reflexivity. Qed.

Lemma contains_unfold s substr :
  contains s substr =
  String.prefix substr s || match s with EmptyString => false | String _ s' => contains s' substr end.
Proof. destruct s; reflexivity. Qed.

Lemma contains_app_r a b substr : contains b substr = true -> contains (a ++ b) substr = true.
Proof.
  intros H; induction a as [| c a IH]; [exact H |].
  change (String c a ++ b) with (String c (a ++ b)).
  rewrite contains_unfold, IH, orb_true_r; reflexivity.
Qed.

(** X10: [forwardOneMessage] publishes at most one message, to the default
    exchange with the destination queue as routing key, carrying the source
    delivery's properties and body as a transient message; it publishes
    nothing when the channel cannot be opened or the destination queue is
    missing. *)
Theorem forward_one_message_publish env sourceQueue destQueue :
  (forall ex rk p ok, In (EPublish ex rk p ok) (fst (forwardOneMessage env sourceQueue destQueue)) ->
     exists msg, fe_get env sourceQueue = GetMsg msg /\ ex = "" /\ rk = destQueue /\
       same_props msg p /\ p_DeliveryMode p = Transient /\ p_Body p = d_Body msg) /\
  length (fst (forwardOneMessage env sourceQueue destQueue)) <= 2 /\
  (fe_channel_ok env = false \/ fe_queue_exists env destQueue = false ->
   fst (forwardOneMessage env sourceQueue destQueue) = []).
Proof.
  unfold forwardOneMessage.
  destruct (fe_channel_ok env) eqn:Ec; simpl.
  2:{ split; [intros ? ? ? ? [] | split; [lia | reflexivity]]. }
  destruct (fe_queue_exists env destQueue) eqn:Eq; simpl.
  2:{ split; [intros ? ? ? ? [] | split; [lia | reflexivity]]. }
  destruct (fe_get env sourceQueue) as [e | | msg]; simpl;
    try (split; [intros ? ? ? ? [] | split; [lia | intros [H | H]; discriminate]]).
  destruct (fe_publish env "" destQueue (publishing_of msg Transient)); simpl;
    (split; [| split; [lia | intros [H | H]; discriminate]]);
    intros ex rk p ok [H | [H | []]]; try discriminate; injection H as <- <- <- _;
    exists msg; destruct msg; unfold same_props; simpl; repeat split.
Qed.

(** X11: when the durable queue of an inbound forwarder is missing or empty,
    the iteration has no broker effect and reports no error. *)
Theorem inbound_empty_or_missing_is_silent env baseName :
  fe_channel_ok env = true ->
  fe_queue_exists env baseName = false \/ fe_get env ("durable_queue_for_" ++ baseName) = GetEmpty ->
  fst (inbound_iteration env baseName) = [] /\
  inbound_reports (snd (inbound_iteration env baseName)) = false.
Proof.
  intros Hc Hq; unfold inbound_iteration, forwardOneMessage; rewrite Hc; cbn [negb].
  destruct (fe_queue_exists env baseName) eqn:Eq; cbn [negb].
  - destruct Hq as [Hq | Hq]; [discriminate |]. rewrite Hq; simpl. split; reflexivity.
  - split; [reflexivity |]. unfold inbound_reports, snd.
    assert (H : contains ("destination queue '" ++ baseName ++ "' does not exist yet") "does not exist yet" = true)
      by (apply (contains_app_r "destination queue '"), contains_app_r; reflexivity).
    rewrite H, andb_false_r; reflexivity.
Qed.

Lemma inbound_empty_or_missing_is_silent_witness :
  fst (inbound_iteration (mkForwardEnv true (fun _ => false) (fun _ => GetEmpty) (fun _ _ _ => true)) "orders") = [] /\
  inbound_reports (snd (inbound_iteration (mkForwardEnv true (fun _ => false) (fun _ => GetEmpty) (fun _ _ _ => true)) "orders")) = false.
Proof. apply inbound_empty_or_missing_is_silent; [reflexivity | left; reflexivity]. Defined.

(** X12: the legacy [StartRouter] keys its workers by
    [source-to-destination] alone, so a router from [src] to [a-to-b]
    prevents starting a router from [src-to-a] to [b]: the second start
    leaves the supervisor unchanged. *)
Theorem legacy_router_key_collision s src a b :
  let s1 := LegacyStartRouter s src (a ++ "-to-" ++ b) in
  LegacyStartRouter s1 (src ++ "-to-" ++ a) b = s1.
Proof.
  intros s1.
  assert (Hk : ("router-" ++ (src ++ "-to-" ++ a) ++ "-to-" ++ b)%string =
               ("router-" ++ src ++ "-to-" ++ (a ++ "-to-" ++ b))%string)
    by (rewrite !str_app_assoc; reflexivity).
  unfold LegacyStartRouter at 1; rewrite Hk.
  assert (Hs1 : sv_workers s1 !! ("router-" ++ src ++ "-to-" ++ (a ++ "-to-" ++ b)) = Some true).
  { subst s1; unfold LegacyStartRouter.
    destruct (sv_workers s !! ("router-" ++ src ++ "-to-" ++ (a ++ "-to-" ++ b))) as [[|] |] eqn:E;
      simpl; rewrite ?E; simpl; try reflexivity; apply lookup_insert_eq. }
  rewrite Hs1; reflexivity.
Qed.

Lemma prefix_app (a b : string) : String.prefix a (a ++ b) = true.
Proof.
  induction a as [| c a IH]; [destruct b; reflexivity |].
  change (String c a ++ b) with (String c (a ++ b)); simpl.
  destruct (Ascii.ascii_dec c c); [exact IH | congruence].
Qed.

(** X13: [RunCollector] publishes only the marshalled body of a successful
    script run, as one persistent JSON message to the exchange
    [collector-output:<id>] with an empty routing key, after declaring that
    exchange; routes whose source is this exchange consume it through their
    fanout queue. *)
Theorem run_collector_publish env collectorID ex rk p ok :
  In (CPublish ex rk p ok) (RunCollector env collectorID) ->
  exists c tm body,
    ce_GetCollectorByID env collectorID = SOk (Some c) /\
    ce_ExecuteScript env (col_Engine c) (col_Script c) [] [] = ROk (Some tm) /\
    ce_marshal env (tm_Body tm) = Some body /\
    ex = ("collector-output:" ++ col_ID c)%string /\ rk = "" /\
    p = text_publishing body (ce_now env) /\
    In (CEnsure ex true) (RunCollector env collectorID) /\
    length (List.filter is_col_publish (RunCollector env collectorID)) = 1 /\
    (forall senv routeID routeName,
       router_source_queue senv routeID routeName ex =
       let q := ("route_fanout_queue_for_" ++ routeName ++ "_" ++ routeID)%string in
       if se_setupFanoutSubscription senv ex q then Some q else None).
Proof.
  unfold RunCollector; cbv zeta.
  destruct (ce_GetCollectorByID env collectorID) as [e | [c |]] eqn:Ec; [intros [] | | intros []].
  destruct (ce_ExecuteScript env _ _ _ _) as [e | [tm |]] eqn:Ex;
    [intros [H | []]; congruence | idtac | intros [H | []]; congruence].
  destruct (ce_marshal env (tm_Body tm)) as [body |] eqn:Em; [| intros [H | []]; congruence].
  destruct (ce_ensure env _) eqn:Ee; [| intros [H | [H | []]]; congruence].
  unfold Publish.
  destruct (ce_publish env _ _ _) eqn:Ep;
    [intros [H | [H | []]]; congruence | |];
    (intros [H | [H | [H | []]]]; [congruence | congruence |]);
    injection H as <- <- <- _;
    exists c, tm, body;
    (split; [reflexivity |]); (split; [exact Ex |]); (split; [exact Em |]);
    (split; [reflexivity |]); (split; [reflexivity |]); (split; [reflexivity |]);
    (split; [right; left; reflexivity |]); (split; [reflexivity |]);
    intros senv routeID routeName; unfold router_source_queue; rewrite prefix_app; reflexivity.
Qed.

Lemma run_collector_publish_witness :
  In (CPublish "collector-output:k1" "" (text_publishing "{}" 0) true)
     (RunCollector sample_collector_env "k1") /\
  exists c tm body,
    ce_GetCollectorByID sample_collector_env "k1" = SOk (Some c) /\
    ce_ExecuteScript sample_collector_env (col_Engine c) (col_Script c) [] [] = ROk (Some tm) /\
    ce_marshal sample_collector_env (tm_Body tm) = Some body /\
    "collector-output:k1" = ("collector-output:" ++ col_ID c)%string /\ "" = "" /\
    text_publishing "{}" 0 = text_publishing body (ce_now sample_collector_env) /\
    In (CEnsure "collector-output:k1" true) (RunCollector sample_collector_env "k1") /\
    length (List.filter is_col_publish (RunCollector sample_collector_env "k1")) = 1 /\
    (forall senv routeID routeName,
       router_source_queue senv routeID routeName "collector-output:k1" =
       let q := ("route_fanout_queue_for_" ++ routeName ++ "_" ++ routeID)%string in
       if se_setupFanoutSubscription senv "collector-output:k1" q then Some q else None).
Proof.
  assert (H : In (CPublish "collector-output:k1" "" (text_publishing "{}" 0) true)
                 (RunCollector sample_collector_env "k1"))
    by (vm_compute; right; right; left; reflexivity).
  split; [exact H |].
  exact (run_collector_publish sample_collector_env "k1" _ _ _ _ H).
Defined.

Lemma start_inbound_reg s b k :
  sv_workers (StartInboundForwarder s b) !! k = Some true <->
  sv_workers s !! k = Some true \/ k = "inbound-" ++ b.
Proof.
  unfold StartInboundForwarder.
  destruct (sv_workers s !! ("inbound-" ++ b)) as [[|] |] eqn:E; cbn [default id sv_workers].
  - split; [tauto |]. intros [H | ->]; [exact H | exact E].
  - destruct (String.eq_dec k ("inbound-" ++ b)) as [-> | Hne].
    + rewrite lookup_insert_eq; tauto.
    + rewrite lookup_insert_ne by congruence; tauto.
  - destruct (String.eq_dec k ("inbound-" ++ b)) as [-> | Hne].
    + rewrite lookup_insert_eq; tauto.
    + rewrite lookup_insert_ne by congruence; tauto.
Qed.

Lemma start_outbound_reg s b k :
  sv_workers (StartOutboundCollector s b) !! k = Some true <->
  sv_workers s !! k = Some true \/ k = "outbound-" ++ b.
Proof.
  unfold StartOutboundCollector.
  destruct (sv_workers s !! ("outbound-" ++ b)) as [[|] |] eqn:E; cbn [default id sv_workers].
  - split; [tauto |]. intros [H | ->]; [exact H | exact E].
  - destruct (String.eq_dec k ("outbound-" ++ b)) as [-> | Hne].
    + rewrite lookup_insert_eq; tauto.
    + rewrite lookup_insert_ne by congruence; tauto.
  - destruct (String.eq_dec k ("outbound-" ++ b)) as [-> | Hne].
    + rewrite lookup_insert_eq; tauto.
    + rewrite lookup_insert_ne by congruence; tauto.
Qed.

Lemma start_router_reg env s rid name src k :
  sv_workers (StartRouter env s rid name src) !! k = Some true <->
  sv_workers s !! k = Some true \/
  (k = "router-" ++ rid /\ router_source_queue env rid name src <> None).
Proof.
  unfold StartRouter.
  destruct (sv_workers s !! ("router-" ++ rid)) as [[|] |] eqn:E; cbn [default id].
  - split; [tauto |]. intros [H | [-> _]]; [exact H | exact E].
  - destruct (router_source_queue env rid name src) as [q |]; cbn [sv_workers].
    + destruct (String.eq_dec k ("router-" ++ rid)) as [-> | Hne].
      * rewrite lookup_insert_eq; split; [right; split; congruence | reflexivity].
      * rewrite lookup_insert_ne by congruence; split; [tauto |]. intros [H | [H _]]; tauto.
    + split; [tauto |]. intros [H | [_ H]]; [exact H | congruence].
  - destruct (router_source_queue env rid name src) as [q |]; cbn [sv_workers].
    + destruct (String.eq_dec k ("router-" ++ rid)) as [-> | Hne].
      * rewrite lookup_insert_eq; split; [right; split; congruence | reflexivity].
      * rewrite lookup_insert_ne by congruence; split; [tauto |]. intros [H | [H _]]; tauto.
    + split; [tauto |]. intros [H | [_ H]]; [exact H | congruence].
Qed.

Lemma fold_left_reg {A} (f : Supervisor -> A -> Supervisor) (P : A -> string -> Prop)
  (Hf : forall s a k, sv_workers (f s a) !! k = Some true <-> sv_workers s !! k = Some true \/ P a k)
  (l : list A) s k :
  sv_workers (fold_left f l s) !! k = Some true <->
  sv_workers s !! k = Some true \/ exists a, In a l /\ P a k.
Proof.
  revert s; induction l as [| a l IH]; intros s; simpl.
  - split; [tauto |]. intros [H | [a [[] _]]]; exact H.
  - rewrite IH, Hf. split.
    + intros [[H | H] | [a' [Ha' H]]]; [left; exact H | right; exists a; tauto | right; exists a'; tauto].
    + intros [H | [a' [[<- | Ha'] H]]]; [tauto | tauto | right; exists a'; tauto].
Qed.

Lemma boot_channel_reg topo s ch k :
  sv_workers (boot_channel topo s ch) !! k = Some true <->
  sv_workers s !! k = Some true \/
  (topo (ch_Destination ch) = true /\
   ((ch_Direction ch = "inbound" /\ k = "inbound-" ++ ch_Destination ch) \/
    (ch_Direction ch = "outbound" /\ k = "outbound-" ++ ch_Destination ch))).
Proof.
  unfold boot_channel.
  destruct (topo (ch_Destination ch)) eqn:Et.
  - destruct (String.eqb_spec (ch_Direction ch) "inbound") as [Hi | Hi].
    + rewrite start_inbound_reg, Hi. split; [intros [H | H]; [left | right]; tauto |].
      intros [H | [_ [[_ H] | [H _]]]]; [tauto | tauto | discriminate].
    + destruct (String.eqb_spec (ch_Direction ch) "outbound") as [Ho | Ho].
      * rewrite start_outbound_reg, Ho. split; [intros [H | H]; [left | right]; tauto |].
        intros [H | [_ [[H _] | [_ H]]]]; [tauto | discriminate | tauto].
      * split; [tauto |]. intros [H | [_ [[H _] | [H _]]]]; [exact H | congruence | congruence].
  - split; [tauto |]. intros [H | [H _]]; [exact H | discriminate].
Qed.

Lemma boot_app_reg chans topo s app k :
  sv_workers (boot_app chans topo s app) !! k = Some true <->
  sv_workers s !! k = Some true \/
  (exists cs ch, chans (app_ID app) = LOk cs /\ In ch cs /\ topo (ch_Destination ch) = true /\
   ((ch_Direction ch = "inbound" /\ k = "inbound-" ++ ch_Destination ch) \/
    (ch_Direction ch = "outbound" /\ k = "outbound-" ++ ch_Destination ch))).
Proof.
  unfold boot_app.
  destruct (chans (app_ID app)) as [e | cs].
  - split; [tauto |]. intros [H | [cs [ch [H _]]]]; [exact H | discriminate].
  - rewrite (fold_left_reg _ _ (boot_channel_reg topo)). split.
    + intros [H | [ch [Hin H]]]; [tauto | right; exists cs, ch; tauto].
    + intros [H | [cs' [ch [Hcs H]]]]; [tauto |]. injection Hcs as <-. right; exists ch; tauto.
Qed.

Lemma boot_route_reg env s r k :
  sv_workers (boot_route env s r) !! k = Some true <->
  sv_workers s !! k = Some true \/
  (r_SourceChannelID r <> "" /\ k = "router-" ++ r_ID r /\
   router_source_queue env (r_ID r) (r_Name r) (r_SourceChannelID r) <> None).
Proof.
  unfold boot_route.
  destruct (String.eqb_spec (r_SourceChannelID r) "") as [He | He].
  - split; [tauto |]. intros [H | [H _]]; [exact H | contradiction].
  - rewrite start_router_reg. tauto.
Qed.

Lemma boot_fleet_inv apps chans topo env routes :
  sv_inv (Boot apps chans topo env routes, []).
Proof.
  assert (Hc : forall topo s ch, sv_inv (s, []) -> sv_inv (boot_channel topo s ch, [])).
  { intros t s ch I; unfold boot_channel.
    destruct (t (ch_Destination ch)); [| exact I].
    destruct (String.eqb (ch_Direction ch) "inbound");
      [exact (sv_step_inv (s, []) (OpStartInbound (ch_Destination ch)) I) |].
    destruct (String.eqb (ch_Direction ch) "outbound");
      [exact (sv_step_inv (s, []) (OpStartOutbound (ch_Destination ch)) I) | exact I]. }
  assert (Hfold : forall {A} (f : Supervisor -> A -> Supervisor),
            (forall s a, sv_inv (s, []) -> sv_inv (f s a, [])) ->
            forall l s, sv_inv (s, []) -> sv_inv (fold_left f l s, [])).
  { intros A f Hf l; induction l as [| a l IH]; intros s I; simpl; [exact I |].
    apply IH, Hf, I. }
  unfold Boot.
  assert (H0 : sv_inv (match apps with
                       | LErr _ => empty_supervisor
                       | LOk apps => fold_left (boot_app chans topo) apps empty_supervisor
                       end, [])).
  { destruct apps as [e | al]; [exact empty_inv |].
    apply Hfold; [| exact empty_inv].
    intros s app I; unfold boot_app.
    destruct (chans (app_ID app)) as [e | cs]; [exact I |].
    apply Hfold; [apply Hc | exact I]. }
  destruct routes as [e | rl]; [exact H0 |].
  apply Hfold; [| exact H0].
  intros s r I; unfold boot_route.
  destruct (String.eqb (r_SourceChannelID r) ""); [exact I |].
  exact (sv_step_inv (s, []) (OpStartRouter env (r_ID r) (r_Name r) (r_SourceChannelID r)) I).
Qed.

(** X14: after [Boot], a worker key is running exactly when it belongs to an
    inbound or outbound channel of a listed application whose topology was
    set up, or to a listed route with a source channel whose queue could be
    subscribed; each running key has exactly one live goroutine. *)
Theorem boot_starts_configured_workers apps chans topo env routes k :
  let s := Boot apps chans topo env routes in
  (sv_workers s !! k = Some true <->
   (exists al app cs ch, apps = LOk al /\ In app al /\ chans (app_ID app) = LOk cs /\
      In ch cs /\ topo (ch_Destination ch) = true /\
      ((ch_Direction ch = "inbound" /\ k = "inbound-" ++ ch_Destination ch) \/
       (ch_Direction ch = "outbound" /\ k = "outbound-" ++ ch_Destination ch))) \/
   (exists rl r, routes = LOk rl /\ In r rl /\ r_SourceChannelID r <> "" /\
      k = "router-" ++ r_ID r /\
      router_source_queue env (r_ID r) (r_Name r) (r_SourceChannelID r) <> None)) /\
  length (live_workers (s, []) k) = if default false (sv_workers s !! k) then 1 else 0.
Proof.
  intros s; split; [| apply inv_count, boot_fleet_inv].
  subst s; unfold Boot.
  assert (H0 : sv_workers (match apps with
                           | LErr _ => empty_supervisor
                           | LOk apps => fold_left (boot_app chans topo) apps empty_supervisor
                           end) !! k = Some true <->
               exists al app cs ch, apps = LOk al /\ In app al /\ chans (app_ID app) = LOk cs /\
                 In ch cs /\ topo (ch_Destination ch) = true /\
                 ((ch_Direction ch = "inbound" /\ k = "inbound-" ++ ch_Destination ch) \/
                  (ch_Direction ch = "outbound" /\ k = "outbound-" ++ ch_Destination ch))).
  { destruct apps as [e | al].
    - cbn [sv_workers empty_supervisor]. rewrite lookup_empty.
      split; [discriminate |]. intros [al [_ [_ [_ [H _]]]]]; discriminate.
    - rewrite (fold_left_reg _ _ (boot_app_reg chans topo)).
      cbn [sv_workers empty_supervisor]. rewrite lookup_empty. split.
      + intros [H | [app [Hin [cs [ch H]]]]]; [discriminate |].
        exists al, app, cs, ch; tauto.
      + intros [al' [app [cs [ch [Hal H]]]]]. injection Hal as <-.
        right; exists app; split; [tauto |]; exists cs, ch; tauto. }
  destruct routes as [e | rl].
  - rewrite H0. split; [tauto |]. intros [H | [rl [r [H _]]]]; [exact H | discriminate].
  - rewrite (fold_left_reg _ _ (boot_route_reg env)), H0. split.
    + intros [H | [r [Hin H]]]; [tauto | right; exists rl, r; tauto].
    + intros [H | [rl' [r [Hrl H]]]]; [tauto |]. injection Hrl as <-.
      right; exists r; tauto.
Qed.

Lemma filter_length_le {A} (f : A -> bool) l : length (List.filter f l) <= length l.
Proof. induction l as [| a l IH]; simpl; [lia | destruct (f a); simpl; lia]. Qed.

Lemma filter_all_true {A} (f : A -> bool) l :
  (forall x, In x l -> f x = true) -> List.filter f l = l.
Proof.
  induction l as [| a l IH]; intros H; simpl; [reflexivity |].
  rewrite (H a (or_introl eq_refl)), IH; [reflexivity |].
  intros x Hx; apply H; right; exact Hx.
Qed.

(** X15: [DeleteOrphanedChannels] only deletes channels, and when its
    statement runs it deletes exactly the channels whose application no
    longer exists, leaves no orphan, and a second run deletes nothing; the
    count it reports is the number of deleted rows, or 0 on error. *)
Theorem delete_orphaned_channels_prunes exec_err affected_err db :
  let '(db', (n, err)) := DeleteOrphanedChannels exec_err affected_err db in
  db_applications db' = db_applications db /\
  (exec_err = None ->
     (forall ch, In ch (db_channels db') <->
        In ch (db_channels db) /\ app_exists db (ch_ApplicationID ch) = true) /\
     no_orphans db' /\
     DeleteOrphanedChannels None None db' = (db', (0%nat, None))) /\
  (exec_err <> None -> db' = db) /\
  (err = None -> n = (length (db_channels db) - length (db_channels db'))%nat) /\
  (err <> None -> n = 0%nat).
Proof.
  unfold DeleteOrphanedChannels at 1.
  destruct exec_err as [e |].
  - split; [reflexivity |]. split; [discriminate |]. split; [reflexivity |].
    split; [discriminate | reflexivity].
  - set (keep := fun ch => app_exists db (ch_ApplicationID ch)).
    assert (Hin : forall ch, In ch (List.filter keep (db_channels db)) <->
                   In ch (db_channels db) /\ app_exists db (ch_ApplicationID ch) = true)
      by (intros ch; apply filter_In).
    assert (Hno : no_orphans (mkDB (db_applications db) (List.filter keep (db_channels db)))).
    { intros ch H; apply Hin in H; exact (proj2 H). }
    assert (Hidem : DeleteOrphanedChannels None None
                      (mkDB (db_applications db) (List.filter keep (db_channels db))) =
                    (mkDB (db_applications db) (List.filter keep (db_channels db)), (0%nat, None))).
    { unfold DeleteOrphanedChannels; cbn [db_channels db_applications].
      assert (Hfix : List.filter (fun ch => app_exists
                        (mkDB (db_applications db) (List.filter keep (db_channels db)))
                        (ch_ApplicationID ch)) (List.filter keep (db_channels db))
                     = List.filter keep (db_channels db)).
      { apply filter_all_true; intros ch H; apply Hin in H; exact (proj2 H). }
      rewrite Hfix, Nat.sub_diag. reflexivity. }
    destruct affected_err as [e |].
    + split; [reflexivity |]. split; [intros _; split; [exact Hin | split; [exact Hno | exact Hidem]] |].
      split; [intros H; congruence |]. split; [discriminate | reflexivity].
    + split; [reflexivity |]. split; [intros _; split; [exact Hin | split; [exact Hno | exact Hidem]] |].
      split; [intros H; congruence |]. split; [reflexivity | intros H; congruence].
Qed.

Lemma app_exists_iff db appID :
  app_exists db appID = true <-> exists a, In a (db_applications db) /\ app_ID a = appID.
Proof.
  unfold app_exists; rewrite existsb_exists.
  split; intros [a [Ha He]]; exists a; split; try exact Ha; apply String.eqb_eq; exact He.
Qed.

(** X16: [DeleteApplication] is atomic: it succeeds exactly when all four
    steps succeed, a failure leaves the database unchanged, and a success
    removes exactly the application and its channels; it never creates
    orphaned channels. *)
Theorem delete_application_atomic begin_err exec1_err exec2_err commit_err db id :
  let '(db', err) := DeleteApplication begin_err exec1_err exec2_err commit_err db id in
  (err = None <-> begin_err = None /\ exec1_err = None /\ exec2_err = None /\ commit_err = None) /\
  (err <> None -> db' = db) /\
  (err = None ->
     (forall a, In a (db_applications db') <-> In a (db_applications db) /\ app_ID a <> id) /\
     (forall ch, In ch (db_channels db') <-> In ch (db_channels db) /\ ch_ApplicationID ch <> id)) /\
  (no_orphans db -> no_orphans db').
Proof.
  unfold DeleteApplication.
  destruct begin_err as [e |]; [split; [split; [discriminate | intros [H _]; discriminate] |];
    split; [reflexivity |]; split; [discriminate | tauto] |].
  destruct exec1_err as [e |]; [split; [split; [discriminate | intros [_ [H _]]; discriminate] |];
    split; [reflexivity |]; split; [discriminate | tauto] |].
  destruct exec2_err as [e |]; [split; [split; [discriminate | intros [_ [_ [H _]]]; discriminate] |];
    split; [reflexivity |]; split; [discriminate | tauto] |].
  destruct commit_err as [e |]; [split; [split; [discriminate | intros [_ [_ [_ H]]]; discriminate] |];
    split; [reflexivity |]; split; [discriminate | tauto] |].
  assert (Ha : forall a, In a (List.filter (fun a => negb (String.eqb (app_ID a) id))
                                (db_applications db)) <->
                 In a (db_applications db) /\ app_ID a <> id).
  { intros a; rewrite filter_In, negb_true_iff, String.eqb_neq; reflexivity. }
  assert (Hc : forall ch, In ch (List.filter (fun ch => negb (String.eqb (ch_ApplicationID ch) id))
                                  (db_channels db)) <->
                 In ch (db_channels db) /\ ch_ApplicationID ch <> id).
  { intros ch; rewrite filter_In, negb_true_iff, String.eqb_neq; reflexivity. }
  split; [tauto |]. split; [intros H; congruence |]. split; [intros _; split; [exact Ha | exact Hc] |].
  intros Hno ch Hin; cbn [db_channels] in Hin; apply Hc in Hin as [Hin Hne].
  apply Hno, app_exists_iff in Hin as [a [Hina Hid]].
  apply app_exists_iff; exists a; split; [| exact Hid].
  cbn [db_applications]; apply Ha; split; [exact Hina | congruence].
Qed.

Lemma form_route_config_ok form tid iid id :
  String.eqb (f_name form) "" = false ->
  String.eqb (f_source_channel_id form) "" = false ->
  String.eqb (f_destination_channel_id form) "" = false ->
  (if String.eqb (f_route_type form) "transform" then
     if String.eqb (f_transformation_id form) "" then None
     else Some (Some (f_transformation_id form))
   else Some None) = Some tid ->
  route_config_ok (mkRoute id (f_name form) (f_source_channel_id form)
                     (Some (f_destination_channel_id form)) (f_route_type form) tid iid).
Proof.
  intros Hn Hs Hd Ht.
  split; [apply String.eqb_neq; exact Hn |].
  split; [apply String.eqb_neq; exact Hs |].
  split; [exact Hd |].
  cbn [r_RouteType r_TransformationID]; intros Hrt.
  rewrite Hrt, String.eqb_refl in Ht.
  destruct (String.eqb (f_transformation_id form) "") eqn:Et; [discriminate |].
  injection Ht as <-; exact Et.
Qed.

(** X17: [handleCreateRoute] stores a route only when the form is a valid
    route configuration, then answers 303 and starts the route's worker;
    otherwise the supervisor is unchanged and the answer is 400 or 500. *)
Theorem create_route_stores_valid parse_ok form newID create env s :
  match handleCreateRoute parse_ok form newID create env s with
  | (code, Some r, s') =>
      code = 303%Z /\ create r = true /\ r_ID r = newID /\ route_config_ok r /\
      s' = StartRouter env s newID (r_Name r) (r_SourceChannelID r)
  | (code, None, s') => s' = s /\ (code = 400%Z \/ code = 500%Z)
  end.
Proof.
  unfold handleCreateRoute; cbv zeta.
  destruct parse_ok; cbn [negb]; [| split; [reflexivity | left; reflexivity]].
  destruct (String.eqb (f_name form) "") eqn:Hn; [split; [reflexivity | left; reflexivity] |].
  destruct (String.eqb (f_source_channel_id form) "") eqn:Hs;
    [split; [reflexivity | left; reflexivity] |].
  destruct (String.eqb (f_destination_channel_id form) "") eqn:Hd;
    [split; [reflexivity | left; reflexivity] |]; cbn [orb].
  destruct (if String.eqb (f_route_type form) "transform" then _ else _) as [tid |] eqn:Ht;
    [| split; [reflexivity | left; reflexivity]].
  destruct (create _) eqn:Hc; [| split; [reflexivity | right; reflexivity]].
  split; [reflexivity |]. split; [exact Hc |]. split; [reflexivity |].
  split; [apply form_route_config_ok; assumption | reflexivity].
Qed.

(** X18: [handleEditRoute] updates only an existing route, keeping its id,
    and only with a valid configuration, then answers 303 and restarts the
    route's worker; otherwise nothing is restarted and the answer is 400,
    404 or 500. *)
Theorem edit_route_stores_valid parse_ok get form update env s :
  match handleEditRoute parse_ok get form update env s with
  | (code, Some r, res) =>
      code = 303%Z /\ update r = true /\
      (exists old, get = SOk (Some old) /\ r_ID r = r_ID old) /\
      route_config_ok r /\
      res = RestartRouter env s (r_ID r) (r_Name r) (r_SourceChannelID r)
  | (code, None, res) => res = (s, None) /\ (code = 400%Z \/ code = 404%Z \/ code = 500%Z)
  end.
Proof.
  unfold handleEditRoute; cbv zeta.
  destruct parse_ok; cbn [negb]; [| split; [reflexivity | left; reflexivity]].
  destruct get as [e | [old |]]; [split; [reflexivity | right; left; reflexivity] | |
                                  split; [reflexivity | right; left; reflexivity]].
  destruct (String.eqb (f_name form) "") eqn:Hn; [split; [reflexivity | left; reflexivity] |].
  destruct (String.eqb (f_source_channel_id form) "") eqn:Hs;
    [split; [reflexivity | left; reflexivity] |].
  destruct (String.eqb (f_destination_channel_id form) "") eqn:Hd;
    [split; [reflexivity | left; reflexivity] |]; cbn [orb].
  destruct (if String.eqb (f_route_type form) "transform" then _ else _) as [tid |] eqn:Ht;
    [| split; [reflexivity | left; reflexivity]].
  destruct (update _) eqn:Hu; [| split; [reflexivity | right; right; reflexivity]].
  split; [reflexivity |]. split; [exact Hu |].
  split; [exists old; split; reflexivity |].
  split; [apply form_route_config_ok; assumption | reflexivity].
Qed.

Lemma create_route_config parse_ok form newID create env s r :
  snd (fst (handleCreateRoute parse_ok form newID create env s)) = Some r -> route_config_ok r.
Proof.
  unfold handleCreateRoute; cbv zeta.
  destruct parse_ok; cbn [negb]; [| discriminate].
  destruct (String.eqb (f_name form) "") eqn:Hn; [discriminate |].
  destruct (String.eqb (f_source_channel_id form) "") eqn:Hs; [discriminate |].
  destruct (String.eqb (f_destination_channel_id form) "") eqn:Hd; [discriminate |]; cbn [orb].
  destruct (if String.eqb (f_route_type form) "transform" then _ else _) as [tid |] eqn:Ht;
    [| discriminate].
  destruct (create _); [| discriminate].
  cbn [fst snd]; intros H; injection H as <-.
  apply form_route_config_ok; assumption.
Qed.

Lemma route_one_config_ok env routeID d route :
  fetch_route (re_GetRouteByID env) = SOk (Some route) ->
  route_config_ok route ->
  In (ENack false) (route_one env routeID d) ->
  r_RouteType route = "transform" /\
  exists destID ch, r_DestinationChannelID route = Some destID /\
                    re_GetChannelByID env destID = SOk (Some ch).
Proof.
  intros Hf [_ [_ [Hd Ht]]]; unfold route_one; rewrite Hf.
  destruct (r_DestinationChannelID route) as [destID |] eqn:Ed; [| discriminate].
  cbn [is_empty_opt] in Hd; rewrite Hd.
  destruct (re_GetChannelByID env destID) as [e | [ch |]] eqn:Ec;
    [intros [H | []]; discriminate | | intros [H | []]; discriminate].
  cbv zeta.
  destruct (String.eqb_spec (r_RouteType route) "transform") as [Hrt | Hrt].
  - intros _; split; [exact Hrt | exists destID, ch; split; [reflexivity | exact Ec]].
  - unfold republishAsDurable; destruct (re_broker env _ _); simpl; intuition discriminate.
Qed.

(** X19: a route created through [handleCreateRoute] can dead-letter a
    delivery only as a transform route, with its destination channel found. *)
Theorem created_route_dead_letters_only_in_transform parse_ok form newID create senv s
  env routeID d route :
  snd (fst (handleCreateRoute parse_ok form newID create senv s)) = Some route ->
  fetch_route (re_GetRouteByID env) = SOk (Some route) ->
  In (ENack false) (route_one env routeID d) ->
  r_RouteType route = "transform" /\
  exists destID ch, r_DestinationChannelID route = Some destID /\
                    re_GetChannelByID env destID = SOk (Some ch).
Proof.
  intros Hc Hf; apply route_one_config_ok; [exact Hf |].
  exact (create_route_config _ _ _ _ _ _ _ Hc).
Qed.

Lemma created_route_dead_letters_only_in_transform_witness :
  snd (fst (handleCreateRoute true sample_route_form "r1" (fun _ => true) env_missing_source
              empty_supervisor)) = Some (sample_route (Some "c2") "transform") /\
  fetch_route (re_GetRouteByID (sample_env (sample_route (Some "c2") "transform") "starlark"
                                  (fun _ _ _ _ => RErr "boom"))) =
    SOk (Some (sample_route (Some "c2") "transform")) /\
  In (ENack false) (route_one (sample_env (sample_route (Some "c2") "transform") "starlark"
                                 (fun _ _ _ _ => RErr "boom")) "r1" sample_delivery) /\
  r_RouteType (sample_route (Some "c2") "transform") = "transform" /\
  exists destID ch, r_DestinationChannelID (sample_route (Some "c2") "transform") = Some destID /\
    re_GetChannelByID (sample_env (sample_route (Some "c2") "transform") "starlark"
                         (fun _ _ _ _ => RErr "boom")) destID = SOk (Some ch).
Proof.
  assert (H1 : snd (fst (handleCreateRoute true sample_route_form "r1" (fun _ => true)
                           env_missing_source empty_supervisor)) =
               Some (sample_route (Some "c2") "transform")) by reflexivity.
  assert (H2 : fetch_route (re_GetRouteByID (sample_env (sample_route (Some "c2") "transform")
                 "starlark" (fun _ _ _ _ => RErr "boom"))) =
               SOk (Some (sample_route (Some "c2") "transform"))) by reflexivity.
  assert (H3 : In (ENack false) (route_one (sample_env (sample_route (Some "c2") "transform")
                 "starlark" (fun _ _ _ _ => RErr "boom")) "r1" sample_delivery))
    by (vm_compute; right; left; reflexivity).
  split; [exact H1 |]. split; [exact H2 |]. split; [exact H3 |].
  exact (created_route_dead_letters_only_in_transform true sample_route_form "r1" (fun _ => true)
           env_missing_source empty_supervisor _ "r1" sample_delivery _ H1 H2 H3).
Defined.

Lemma find_some_in {A} (f : A -> bool) l x : List.find f l = Some x -> In x l /\ f x = true.
Proof.
  induction l as [| a l IH]; simpl; [discriminate |].
  destruct (f a) eqn:E; [intros H; injection H as <-; tauto |].
  intros H; apply IH in H; tauto.
Qed.

Lemma find_token_unique apps app :
  NoDup (map app_IDToken apps) -> In app apps ->
  List.find (fun a => String.eqb (app_IDToken a) (app_IDToken app)) apps = Some app.
Proof.
  induction apps as [| a apps IH]; simpl; [intros _ [] |].
  intros Hnd Hin; inversion Hnd as [| ? ? Hni Hnd']; subst.
  destruct (String.eqb_spec (app_IDToken a) (app_IDToken app)) as [E | E].
  - destruct Hin as [<- | Hin]; [reflexivity |].
    exfalso; apply Hni; rewrite E; apply list_elem_of_In, in_map, Hin.
  - destruct Hin as [<- | Hin]; [congruence | apply IH; assumption].
Qed.

Lemma bearer_header env t :
  getAppFromRequest env ("Bearer " ++ t) =
  match ae_GetApplicationByIDToken env t with
  | SErr e => SErr e
  | SOk None => SOk None
  | SOk (Some app) => SOk (Some app)
  end.
Proof. reflexivity. Qed.

(** X20: when application tokens are distinct, a token issued by
    [handleGetToken] belongs to the application whose id and secret were
    given by basic auth, and that token authenticates that application as a
    bearer token. *)
Theorem issued_token_authenticates apps b64 method authHeader resp :
  NoDup (map app_IDToken apps) ->
  handleGetToken (store_of apps b64) method authHeader = TokenIssued resp ->
  exists app, In app apps /\
    BasicAuth b64 authHeader = Some (app_ID app, app_ClientSecret app) /\
    assoc "id_token" resp = Some (app_IDToken app) /\
    getAppFromRequest (store_of apps b64) ("Bearer " ++ app_IDToken app) = SOk (Some app).
Proof.
  intros Hnd; unfold handleGetToken.
  destruct (negb (String.eqb method "POST")); [discriminate |].
  destruct (BasicAuth (ae_base64_decode (store_of apps b64)) authHeader) as [[id secret] |] eqn:Eb;
    [| discriminate].
  cbn [ae_GetApplicationByID store_of].
  destruct (List.find (fun a => String.eqb (app_ID a) id) apps) as [app |] eqn:Ef; [| discriminate].
  destruct (String.eqb_spec (app_ClientSecret app) secret) as [Es | Es]; [| discriminate].
  intros H; injection H as <-.
  apply find_some_in in Ef as [Hin Hid]; apply String.eqb_eq in Hid.
  exists app; split; [exact Hin |].
  split; [cbn [ae_base64_decode store_of] in Eb; rewrite Eb, Hid, Es; reflexivity |].
  split; [reflexivity |].
  rewrite bearer_header; cbn [ae_GetApplicationByIDToken store_of].
  rewrite find_token_unique by assumption. reflexivity.
Qed.

Lemma issued_token_authenticates_witness :
  NoDup (map app_IDToken sample_apps) /\
  handleGetToken (store_of sample_apps sample_b64) "POST" "Basic YTE6czE=" =
    TokenIssued [("id_token", "tok1"); ("token_type", "Bearer"); ("access_token", "Not implemented")] /\
  exists app, In app sample_apps /\
    BasicAuth sample_b64 "Basic YTE6czE=" = Some (app_ID app, app_ClientSecret app) /\
    assoc "id_token" [("id_token", "tok1"); ("token_type", "Bearer");
                      ("access_token", "Not implemented")] = Some (app_IDToken app) /\
    getAppFromRequest (store_of sample_apps sample_b64) ("Bearer " ++ app_IDToken app) =
      SOk (Some app).
Proof.
  assert (H1 : NoDup (map app_IDToken sample_apps)) by (vm_compute; repeat constructor; set_solver).
  assert (H2 : handleGetToken (store_of sample_apps sample_b64) "POST" "Basic YTE6czE=" =
    TokenIssued [("id_token", "tok1"); ("token_type", "Bearer"); ("access_token", "Not implemented")])
    by reflexivity.
  split; [exact H1 |]. split; [exact H2 |].
  exact (issued_token_authenticates sample_apps sample_b64 _ _ _ H1 H2).
Defined.

(** X21: [getAppFromRequest] authenticates an application only from a bearer
    token equal to the application's token, or from basic auth with the
    application's id and secret. *)
Theorem api_auth_requires_credential apps b64 authHeader app :
  getAppFromRequest (store_of apps b64) authHeader = SOk (Some app) ->
  In app apps /\
  ((exists scheme token, cut_at " " authHeader = Some (scheme, token) /\
      to_lower scheme = "bearer" /\ app_IDToken app = token) \/
   (exists scheme rest, cut_at " " authHeader = Some (scheme, rest) /\
      to_lower scheme = "basic" /\
      BasicAuth b64 authHeader = Some (app_ID app, app_ClientSecret app))).
Proof.
  unfold getAppFromRequest.
  destruct (String.eqb authHeader ""); [discriminate |].
  destruct (cut_at " " authHeader) as [[p0 p1] |] eqn:Ec; [| discriminate]; cbv zeta.
  destruct (String.eqb_spec (to_lower p0) "bearer") as [Hb | Hb].
  - cbn [ae_GetApplicationByIDToken store_of].
    destruct (List.find _ apps) as [a |] eqn:Ef; [| discriminate].
    intros H; injection H as <-.
    apply find_some_in in Ef as [Hin Ht]; apply String.eqb_eq in Ht.
    split; [exact Hin | left; exists p0, p1; tauto].
  - destruct (String.eqb_spec (to_lower p0) "basic") as [Hs | Hs]; [| discriminate].
    cbn [ae_base64_decode ae_GetApplicationByID store_of].
    destruct (BasicAuth b64 authHeader) as [[id secret] |] eqn:Eb; [| discriminate].
    destruct (List.find _ apps) as [a |] eqn:Ef; [| discriminate].
    destruct (String.eqb_spec (app_ClientSecret a) secret) as [Es | Es]; [| discriminate].
    intros H; injection H as <-.
    apply find_some_in in Ef as [Hin Hid]; apply String.eqb_eq in Hid.
    split; [exact Hin | right; exists p0, p1; split; [reflexivity |]; split; [exact Hs |]].
    rewrite Hid, Es; reflexivity.
Qed.

Lemma api_auth_requires_credential_witness :
  getAppFromRequest (store_of sample_apps sample_b64) "Bearer tok2" =
    SOk (Some (mkApplication "a2" "crm" "s2" "tok2")) /\
  In (mkApplication "a2" "crm" "s2" "tok2") sample_apps /\
  ((exists scheme token, cut_at " " "Bearer tok2" = Some (scheme, token) /\
      to_lower scheme = "bearer" /\ app_IDToken (mkApplication "a2" "crm" "s2" "tok2") = token) \/
   (exists scheme rest, cut_at " " "Bearer tok2" = Some (scheme, rest) /\
      to_lower scheme = "basic" /\
      BasicAuth sample_b64 "Bearer tok2" =
        Some (app_ID (mkApplication "a2" "crm" "s2" "tok2"),
              app_ClientSecret (mkApplication "a2" "crm" "s2" "tok2")))).
Proof.
  assert (H : getAppFromRequest (store_of sample_apps sample_b64) "Bearer tok2" =
                SOk (Some (mkApplication "a2" "crm" "s2" "tok2"))) by reflexivity.
  split; [exact H |].
  exact (api_auth_requires_credential sample_apps sample_b64 _ _ H).
Defined.

Lemma list_filter_nodup {A} (f : A -> bool) (l : list A) : NoDup l -> NoDup (List.filter f l).
Proof.
  induction l as [| a l IH]; simpl; intros Hnd; [constructor |].
  rewrite NoDup_cons in Hnd; destruct Hnd as [Hni Hnd].
  destruct (f a); [| apply IH, Hnd].
  rewrite NoDup_cons; split; [| apply IH, Hnd].
  rewrite list_elem_of_In, filter_In; intros [H _]; apply Hni, list_elem_of_In, H.
Qed.

Lemma db_queue_fold chs m l :
  (forall q, default false (m !! q) = true <-> In q l) ->
  (forall q b, m !! q = Some b -> b = true) -> NoDup l ->
  let '(m', l') := fold_left db_queue_step chs (m, l) in
  (forall q, default false (m' !! q) = true <-> In q l') /\
  (forall q b, m' !! q = Some b -> b = true) /\ NoDup l' /\
  (forall q, In q l' <-> In q l \/
     exists ch, In ch chs /\ q = "durable_queue_for_" ++ ch_Destination ch).
Proof.
  revert m l; induction chs as [| ch chs IH]; intros m l Hm Ht Hnd; simpl.
  - split; [exact Hm |]. split; [exact Ht |]. split; [exact Hnd |].
    intros q; split; [tauto |]. intros [H | [ch [[] _]]]; exact H.
  - set (q0 := "durable_queue_for_" ++ ch_Destination ch).
    destruct (default false (m !! q0)) eqn:E.
    + specialize (IH m l Hm Ht Hnd); destruct (fold_left db_queue_step chs (m, l)) as [m' l'].
      destruct IH as [H1 [H2 [H3 H4]]]. split; [exact H1 |]. split; [exact H2 |].
      split; [exact H3 |]. intros q; rewrite H4; split.
      * intros [H | [c [Hc ->]]]; [left; exact H | right; exists c; tauto].
      * intros [H | [c [[<- | Hc] ->]]]; [left; exact H | left; apply Hm, E | right; exists c; tauto].
    + assert (Hm' : forall q, default false (<[q0 := true]> m !! q) = true <-> In q (l ++ [q0])%list).
      { intros q; rewrite in_app_iff; simpl.
        destruct (String.eq_dec q q0) as [-> | Hne].
        - rewrite lookup_insert_eq; simpl; tauto.
        - rewrite lookup_insert_ne by congruence; rewrite Hm; split; [tauto |].
          intros [H | [H | []]]; [exact H | congruence]. }
      assert (Ht' : forall q b, <[q0 := true]> m !! q = Some b -> b = true).
      { intros q b; destruct (String.eq_dec q q0) as [-> | Hne].
        - rewrite lookup_insert_eq; congruence.
        - rewrite lookup_insert_ne by congruence; apply Ht. }
      assert (Hnd' : NoDup (l ++ [q0])%list).
      { apply NoDup_app; split; [exact Hnd |]. split; [| apply NoDup_singleton].
        intros x Hx Hx'; apply list_elem_of_singleton in Hx'; subst x.
        apply list_elem_of_In, Hm in Hx; congruence. }
      specialize (IH _ _ Hm' Ht' Hnd'); destruct (fold_left db_queue_step chs _) as [m' l'].
      destruct IH as [H1 [H2 [H3 H4]]]. split; [exact H1 |]. split; [exact H2 |].
      split; [exact H3 |]. intros q; rewrite H4, in_app_iff; simpl; split.
      * intros [[H | [H | []]] | [c [Hc ->]]]; [left; exact H | |
                                               right; exists c; tauto].
        right; exists ch; split; [left; reflexivity | rewrite <- H; reflexivity].
      * intros [H | [c [[<- | Hc] ->]]]; [tauto | left; right; left; reflexivity |
                                         right; exists c; tauto].
Qed.

Lemma rabbit_queue_fold qs m l :
  (forall q, default false (m !! q) = true <-> In q l) ->
  (forall q b, m !! q = Some b -> b = true) ->
  let '(m', l') := fold_left rabbit_queue_step qs (m, l) in
  (forall q, default false (m' !! q) = true <-> In q l') /\
  (forall q b, m' !! q = Some b -> b = true) /\
  (forall q, In q l' <-> In q l \/
     exists qi, In qi qs /\ qi_Durable qi = true /\
       String.prefix "durable_queue_for_" (qi_Name qi) = true /\ qi_Name qi = q).
Proof.
  revert m l; induction qs as [| qi qs IH]; intros m l Hm Ht; simpl.
  - split; [exact Hm |]. split; [exact Ht |].
    intros q; split; [tauto |]. intros [H | [x [[] _]]]; exact H.
  - destruct (qi_Durable qi && String.prefix "durable_queue_for_" (qi_Name qi)) eqn:E.
    + apply andb_true_iff in E as [Ed Ep].
      assert (Hm' : forall q, default false (<[qi_Name qi := true]> m !! q) = true <->
                              In q (l ++ [qi_Name qi])%list).
      { intros q; rewrite in_app_iff; simpl.
        destruct (String.eq_dec q (qi_Name qi)) as [-> | Hne].
        - rewrite lookup_insert_eq; simpl; tauto.
        - rewrite lookup_insert_ne by congruence; rewrite Hm; split; [tauto |].
          intros [H | [H | []]]; [exact H | congruence]. }
      assert (Ht' : forall q b, <[qi_Name qi := true]> m !! q = Some b -> b = true).
      { intros q b; destruct (String.eq_dec q (qi_Name qi)) as [-> | Hne].
        - rewrite lookup_insert_eq; congruence.
        - rewrite lookup_insert_ne by congruence; apply Ht. }
      specialize (IH _ _ Hm' Ht'); destruct (fold_left rabbit_queue_step qs _) as [m' l'].
      destruct IH as [H1 [H2 H4]]. split; [exact H1 |]. split; [exact H2 |].
      intros q; rewrite H4, in_app_iff; simpl; split.
      * intros [[H | [H | []]] | [x [Hx H]]]; [left; exact H | right; exists qi; tauto |
                                              right; exists x; tauto].
      * intros [H | [x [[<- | Hx] H]]]; [tauto | left; right; left; tauto | right; exists x; tauto].
    + specialize (IH m l Hm Ht); destruct (fold_left rabbit_queue_step qs (m, l)) as [m' l'].
      destruct IH as [H1 [H2 H4]]. split; [exact H1 |]. split; [exact H2 |].
      intros q; rewrite H4; split.
      * intros [H | [x [Hx H]]]; [left; exact H | right; exists x; tauto].
      * intros [H | [x [[<- | Hx] [Hd [Hp Hn]]]]]; [left; exact H | | right; exists x; tauto].
        rewrite Hd, Hp in E; discriminate.
Qed.

Lemma partition_fold (dbQueueMap : gmap string bool) ks o mt :
  fold_left (fun '(o, mt) qName =>
               if negb (default false (dbQueueMap !! qName)) then ((o ++ [qName])%list, mt)
               else (o, (mt ++ [qName])%list)) ks (o, mt) =
  ((o ++ List.filter (fun q => negb (default false (dbQueueMap !! q))) ks)%list,
   (mt ++ List.filter (fun q => default false (dbQueueMap !! q)) ks)%list).
Proof.
  revert o mt; induction ks as [| k ks IH]; intros o mt; simpl.
  - rewrite !app_nil_r; reflexivity.
  - destruct (default false (dbQueueMap !! k)); simpl; rewrite IH, <- !app_assoc; reflexivity.
Qed.

Lemma missing_fold (rabbitQueueMap : gmap string bool) ks mi :
  fold_left (fun mi qName =>
               if negb (default false (rabbitQueueMap !! qName)) then (mi ++ [qName])%list else mi)
            ks mi =
  (mi ++ List.filter (fun q => negb (default false (rabbitQueueMap !! q))) ks)%list.
Proof.
  revert mi; induction ks as [| k ks IH]; intros mi; simpl.
  - rewrite app_nil_r; reflexivity.
  - destruct (default false (rabbitQueueMap !! k)); simpl; rewrite IH; [reflexivity |].
    rewrite <- app_assoc; reflexivity.
Qed.

Lemma enum_in (enum : gmap string bool -> list string) (m : gmap string bool) q :
  enum m ≡ₚ (map_to_list m).*1 -> In q (enum m) <-> is_Some (m !! q).
Proof.
  intros Hp; rewrite <- list_elem_of_In, Hp, list_elem_of_fmap; split.
  - intros [[k v] [-> Hin]]; apply elem_of_map_to_list in Hin; exists v; exact Hin.
  - intros [v Hv]; exists (q, v); split; [reflexivity | apply elem_of_map_to_list, Hv].
Qed.

Lemma enum_nodup (enum : gmap string bool -> list string) (m : gmap string bool) :
  enum m ≡ₚ (map_to_list m).*1 -> NoDup (enum m).
Proof. intros Hp; rewrite Hp; apply NoDup_fst_map_to_list. Qed.

Lemma default_true_some (m : gmap string bool) q :
  (forall q b, m !! q = Some b -> b = true) -> default false (m !! q) = true <-> is_Some (m !! q).
Proof.
  intros Ht; destruct (m !! q) as [b |] eqn:E; simpl.
  - rewrite (Ht q b E); split; [intros _; eexists; reflexivity | reflexivity].
  - split; [discriminate | intros [v Hv]; discriminate].
Qed.

(** X22: [handleQueueReconciliation] partitions the durable queues: the
    orphaned queues are those in RabbitMQ and not in the database, the
    matching ones are in both, and the missing ones are in the database and
    not in RabbitMQ, with no duplicates; this holds for every iteration
    order of the Go maps. *)
Theorem queue_reconciliation_partition enum channels queues :
  (forall m : gmap string bool, enum m ≡ₚ (map_to_list m).*1) ->
  exists r, handleQueueReconciliation enum (LOk channels) (LOk queues) = ReconOk r /\
    NoDup (DBQueues r) /\ NoDup (OrphanedQueues r) /\ NoDup (MatchingQueues r) /\
    NoDup (MissingQueues r) /\
    (forall q, In q (DBQueues r) <->
       exists ch, In ch channels /\ q = "durable_queue_for_" ++ ch_Destination ch) /\
    (forall q, In q (RabbitMQQueues r) <->
       exists qi, In qi queues /\ qi_Durable qi = true /\
         String.prefix "durable_queue_for_" (qi_Name qi) = true /\ qi_Name qi = q) /\
    (forall q, In q (OrphanedQueues r) <-> In q (RabbitMQQueues r) /\ ~ In q (DBQueues r)) /\
    (forall q, In q (MatchingQueues r) <-> In q (RabbitMQQueues r) /\ In q (DBQueues r)) /\
    (forall q, In q (MissingQueues r) <-> In q (DBQueues r) /\ ~ In q (RabbitMQQueues r)).
Proof.
  intros Hp; unfold handleQueueReconciliation.
  assert (E1 : forall q, default false ((∅ : gmap string bool) !! q) = true <-> In q []).
  { intros q; rewrite lookup_empty; simpl; split; [discriminate | intros []]. }
  assert (E2 : forall q b, (∅ : gmap string bool) !! q = Some b -> b = true).
  { intros q b; rewrite lookup_empty; discriminate. }
  pose proof (db_queue_fold channels ∅ [] E1 E2 (NoDup_nil_2)) as HD.
  destruct (fold_left db_queue_step channels (∅, [])) as [dbm dbl].
  destruct HD as [D1 [D2 [D3 D4]]].
  pose proof (rabbit_queue_fold queues ∅ [] E1 E2) as HR.
  destruct (fold_left rabbit_queue_step queues (∅, [])) as [rm rl].
  destruct HR as [R1 [R2 R4]].
  rewrite partition_fold, missing_fold; cbn [app].
  eexists; split; [reflexivity |]; cbn [DBQueues RabbitMQQueues OrphanedQueues MatchingQueues
                                          MissingQueues].
  assert (Inrm : forall q, In q (enum rm) <-> In q rl).
  { intros q; rewrite enum_in by apply Hp; rewrite <- default_true_some by exact R2; apply R1. }
  assert (Indbm : forall q, In q (enum dbm) <-> In q dbl).
  { intros q; rewrite enum_in by apply Hp; rewrite <- default_true_some by exact D2; apply D1. }
  split; [exact D3 |].
  split; [apply list_filter_nodup, enum_nodup, Hp |].
  split; [apply list_filter_nodup, enum_nodup, Hp |].
  split; [apply list_filter_nodup, enum_nodup, Hp |].
  split; [intros q; rewrite D4; split; [intros [[] | H]; exact H | intros H; right; exact H] |].
  split; [intros q; rewrite R4; split; [intros [[] | H]; exact H | intros H; right; exact H] |].
  split; [| split].
  - intros q; rewrite filter_In, Inrm, negb_true_iff, <- D1.
    destruct (default false (dbm !! q)); intuition congruence.
  - intros q; rewrite filter_In, Inrm, D1; tauto.
  - intros q; rewrite filter_In, Indbm, negb_true_iff, <- R1.
    destruct (default false (rm !! q)); intuition congruence.
Qed.

Lemma queue_reconciliation_partition_witness :
  (forall m : gmap string bool, (map_to_list m).*1 ≡ₚ (map_to_list m).*1) /\
  exists r, handleQueueReconciliation (fun m => (map_to_list m).*1)
              (LOk sample_db_channels) (LOk sample_rabbit_queues) = ReconOk r /\
    NoDup (DBQueues r) /\ NoDup (OrphanedQueues r) /\ NoDup (MatchingQueues r) /\
    NoDup (MissingQueues r) /\
    (forall q, In q (DBQueues r) <->
       exists ch, In ch sample_db_channels /\ q = "durable_queue_for_" ++ ch_Destination ch) /\
    (forall q, In q (RabbitMQQueues r) <->
       exists qi, In qi sample_rabbit_queues /\ qi_Durable qi = true /\
         String.prefix "durable_queue_for_" (qi_Name qi) = true /\ qi_Name qi = q) /\
    (forall q, In q (OrphanedQueues r) <-> In q (RabbitMQQueues r) /\ ~ In q (DBQueues r)) /\
    (forall q, In q (MatchingQueues r) <-> In q (RabbitMQQueues r) /\ In q (DBQueues r)) /\
    (forall q, In q (MissingQueues r) <-> In q (DBQueues r) /\ ~ In q (RabbitMQQueues r)).
Proof.
  assert (Hp : forall m : gmap string bool, (map_to_list m).*1 ≡ₚ (map_to_list m).*1)
    by (intros m; reflexivity).
  split; [exact Hp |].
  exact (queue_reconciliation_partition (fun m => (map_to_list m).*1)
           sample_db_channels sample_rabbit_queues Hp).
Defined.

Lemma broker_le_refl b : broker_le b b.
Proof. split; [tauto | set_solver]. Qed.

Lemma routes_to_mono b b' ex q : broker_le b b' -> routes_to b ex q -> routes_to b' ex q.
Proof.
  intros [He Hb] [Hin [d Hd]]; split; [set_solver |]. exists d; apply He, Hd.
Qed.

Lemma subscribed_le b ex q :
  declarable b ex q -> broker_le b (subscribed b ex q).
Proof.
  intros [Hx _]; split; [| cbn [subscribed b_bindings]; set_solver].
  intros k v Hk; cbn [b_exchanges subscribed].
  destruct (String.eq_dec k ex) as [-> | Hne].
  - rewrite lookup_insert_eq. rewrite Hk in Hx. destruct v as [kk d]; destruct Hx as [-> ->]; reflexivity.
  - rewrite lookup_insert_ne by congruence; exact Hk.
Qed.

Lemma subscribed_routes b ex q : routes_to (subscribed b ex q) ex q.
Proof.
  split; [cbn [subscribed b_bindings]; set_solver |]. exists true; cbn [subscribed b_exchanges]; apply lookup_insert_eq.
Qed.

Lemma subscribed_declarable b ex q : declarable (subscribed b ex q) ex q.
Proof. unfold declarable; cbn [subscribed b_exchanges b_queues]; rewrite !lookup_insert_eq; tauto. Qed.

Lemma subscribed_idem b ex q : subscribed (subscribed b ex q) ex q = subscribed b ex q.
Proof.
  unfold subscribed; cbn [b_exchanges b_queues b_bindings].
  rewrite !insert_insert_eq. f_equal. set_solver.
Qed.

Lemma fanout_ok b ex q :
  declarable b ex q -> setupFanoutSubscription true b ex q = (None, subscribed b ex q).
Proof.
  intros [Hx Hq]; unfold setupFanoutSubscription, subscribed; cbn [negb].
  unfold ExchangeDeclare.
  destruct (b_exchanges b !! ex) as [[k d] |] eqn:Ex.
  - destruct Hx as [-> ->]; cbn -[insert].
    unfold QueueDeclare.
    destruct (b_queues b !! q) as [d' |] eqn:Eq.
    + subst d'; cbn -[insert]. unfold QueueBind; rewrite Eq, Ex.
      rewrite (insert_id (b_exchanges b) ex ("fanout", true)) by exact Ex.
      rewrite (insert_id (b_queues b) q true) by exact Eq. reflexivity.
    + cbn -[insert]. unfold QueueBind; cbn [b_queues b_exchanges].
      rewrite lookup_insert_eq, Ex.
      rewrite (insert_id (b_exchanges b) ex ("fanout", true)) by exact Ex. reflexivity.
  - cbn -[insert]. unfold QueueDeclare; cbn [b_queues].
    destruct (b_queues b !! q) as [d' |] eqn:Eq.
    + subst d'; cbn -[insert]. unfold QueueBind; cbn [b_queues b_exchanges].
      rewrite Eq, lookup_insert_eq.
      rewrite (insert_id (b_queues b) q true) by exact Eq. reflexivity.
    + cbn -[insert]. unfold QueueBind; cbn [b_queues b_exchanges].
      rewrite !lookup_insert_eq. reflexivity.
Qed.

Lemma exchange_declare_le b ex : broker_le b (snd (ExchangeDeclare b ex "fanout" true)).
Proof.
  unfold ExchangeDeclare.
  destruct (b_exchanges b !! ex) as [[k d] |] eqn:E.
  - destruct (_ && _); apply broker_le_refl.
  - split; [| cbn [snd b_bindings]; set_solver].
    intros k v Hk; cbn [snd b_exchanges].
    rewrite lookup_insert_ne by congruence; exact Hk.
Qed.

Lemma queue_declare_le b q : broker_le b (snd (QueueDeclare b q true)).
Proof.
  unfold QueueDeclare.
  destruct (b_queues b !! q) as [d |]; [destruct (Bool.eqb d true); apply broker_le_refl |].
  split; [cbn; tauto | cbn [snd b_bindings]; set_solver].
Qed.

Lemma queue_bind_le b q ex : broker_le b (snd (QueueBind b q ex)).
Proof.
  unfold QueueBind.
  destruct (b_queues b !! q), (b_exchanges b !! ex); try apply broker_le_refl.
  split; [cbn; tauto | cbn [snd b_bindings]; set_solver].
Qed.

Lemma broker_le_trans b1 b2 b3 : broker_le b1 b2 -> broker_le b2 b3 -> broker_le b1 b3.
Proof. intros [H1 H2] [H3 H4]; split; [auto | set_solver]. Qed.

Lemma fanout_le chan_ok b ex q : broker_le b (snd (setupFanoutSubscription chan_ok b ex q)).
Proof.
  unfold setupFanoutSubscription.
  destruct chan_ok; cbn [negb]; [| apply broker_le_refl].
  pose proof (exchange_declare_le b ex) as H1.
  destruct (ExchangeDeclare b ex "fanout" true) as [[e |] b1]; cbn [snd] in H1 |- *; [exact H1 |].
  pose proof (queue_declare_le b1 q) as H2.
  destruct (QueueDeclare b1 q true) as [[e |] b2]; cbn [snd] in H2 |- *;
    [eapply broker_le_trans; eassumption |].
  pose proof (queue_bind_le b2 q ex) as H3.
  destruct (QueueBind b2 q ex) as [[e |] b3]; cbn [snd] in H3 |- *;
    eapply broker_le_trans; [exact H1 | eapply broker_le_trans; eassumption |
                             exact H1 | eapply broker_le_trans; eassumption].
Qed.

Lemma fanout_err b ex q :
  ~ declarable b ex q -> fst (setupFanoutSubscription true b ex q) <> None.
Proof.
  intros Hnd; unfold setupFanoutSubscription; cbn [negb].
  unfold ExchangeDeclare.
  destruct (b_exchanges b !! ex) as [[k d] |] eqn:Ex.
  - destruct (String.eqb_spec k "fanout") as [-> | Hk]; [| cbn; discriminate].
    destruct d; [| cbn; discriminate]. cbn [andb Bool.eqb].
    unfold QueueDeclare.
    destruct (b_queues b !! q) as [d' |] eqn:Eq; [| exfalso; apply Hnd; unfold declarable; rewrite Ex, Eq; tauto].
    destruct d'; [exfalso; apply Hnd; unfold declarable; rewrite Ex, Eq; tauto | cbn; discriminate].
  - cbn -[insert]. unfold QueueDeclare; cbn [b_queues].
    destruct (b_queues b !! q) as [d' |] eqn:Eq; [| exfalso; apply Hnd; unfold declarable; rewrite Ex, Eq; tauto].
    destruct d'; [exfalso; apply Hnd; unfold declarable; rewrite Ex, Eq; tauto | cbn; discriminate].
Qed.

Lemma durable_topology_as_fanout chan_ok b baseName :
  snd (SetupDurableTopology chan_ok b baseName) =
    snd (setupFanoutSubscription chan_ok b ("durable_exchange_for_" ++ baseName)
           ("durable_queue_for_" ++ baseName)) /\
  (fst (SetupDurableTopology chan_ok b baseName) = None <->
   fst (setupFanoutSubscription chan_ok b ("durable_exchange_for_" ++ baseName)
          ("durable_queue_for_" ++ baseName)) = None).
Proof.
  unfold SetupDurableTopology, setupFanoutSubscription; cbv zeta.
  destruct chan_ok; cbn [negb]; [| split; [reflexivity | split; discriminate]].
  destruct (ExchangeDeclare _ _ _ _) as [[e |] b1]; [split; [reflexivity | split; discriminate] |].
  destruct (QueueDeclare _ _ _) as [[e |] b2]; [split; [reflexivity | split; discriminate] |].
  destruct (QueueBind _ _ _) as [[e |] b3]; split; try reflexivity; split; discriminate.
Qed.

Lemma declarable_dec b ex q : {declarable b ex q} + {~ declarable b ex q}.
Proof.
  unfold declarable.
  destruct (b_exchanges b !! ex) as [[k d] |];
    [destruct (String.eq_dec k "fanout"); [| right; tauto]; destruct d; [| right; intros [[_ H] _]; discriminate] |];
  (destruct (b_queues b !! q) as [[|] |]; [left; tauto | right; intros [_ H]; discriminate | left; tauto]).
Qed.

(** X23: [setupFanoutSubscription] succeeds exactly when the channel opens
    and the declarations are compatible with the broker; after success the
    exchange routes to the queue and a rerun changes nothing, and it never
    removes an existing route. *)
Theorem fanout_subscription_delivers chan_ok b ex q :
  let '(err, b') := setupFanoutSubscription chan_ok b ex q in
  (err = None <-> chan_ok = true /\ declarable b ex q) /\
  (err = None -> routes_to b' ex q /\ setupFanoutSubscription true b' ex q = (None, b')) /\
  (forall ex' q', routes_to b ex' q' -> routes_to b' ex' q').
Proof.
  pose proof (fanout_le chan_ok b ex q) as Hle.
  destruct chan_ok.
  - destruct (declarable_dec b ex q) as [Hd | Hd].
    + rewrite (fanout_ok b ex q Hd) in Hle |- *; cbn [snd] in Hle.
      split; [split; [intros _; split; [reflexivity | exact Hd] | reflexivity] |].
      split; [intros _; split; [apply subscribed_routes |] |].
      * rewrite fanout_ok by apply subscribed_declarable. rewrite subscribed_idem; reflexivity.
      * intros ex' q'; apply routes_to_mono, Hle.
    + pose proof (fanout_err b ex q Hd) as He.
      destruct (setupFanoutSubscription true b ex q) as [err b']; cbn [fst snd] in He, Hle.
      split; [split; [intros H; contradiction | intros [_ H]; contradiction] |].
      split; [intros H; contradiction |].
      intros ex' q'; apply routes_to_mono, Hle.
  - unfold setupFanoutSubscription; cbn [negb].
    split; [split; [discriminate | intros [H _]; discriminate] |].
    split; [discriminate |]. tauto.
Qed.

(** X24: [SetupDurableTopology] succeeds exactly when the channel opens and
    the declarations are compatible; after success the durable exchange
    routes to the durable queue, a rerun changes nothing, no existing route
    is removed, and a later route subscription to the durable exchange keeps
    the durable queue receiving. *)
Theorem durable_topology_delivers chan_ok b baseName :
  let dx := "durable_exchange_for_" ++ baseName in
  let dq := "durable_queue_for_" ++ baseName in
  let '(err, b') := SetupDurableTopology chan_ok b baseName in
  (err = None <-> chan_ok = true /\ declarable b dx dq) /\
  (err = None -> routes_to b' dx dq /\ SetupDurableTopology true b' baseName = (None, b')) /\
  (forall ex' q', routes_to b ex' q' -> routes_to b' ex' q') /\
  (err = None -> forall rq,
     fst (setupFanoutSubscription true b' dx rq) = None ->
     routes_to (snd (setupFanoutSubscription true b' dx rq)) dx dq /\
     routes_to (snd (setupFanoutSubscription true b' dx rq)) dx rq).
Proof.
  intros dx dq.
  destruct (durable_topology_as_fanout chan_ok b baseName) as [Hs Hf].
  destruct (SetupDurableTopology chan_ok b baseName) as [err b'] eqn:Et; cbn [fst snd] in Hs, Hf.
  fold dx dq in Hs, Hf.
  pose proof (fanout_le chan_ok b dx dq) as Hle; rewrite <- Hs in Hle.
  assert (Hsub : forall b0 rq, routes_to b0 dx dq ->
            fst (setupFanoutSubscription true b0 dx rq) = None ->
            routes_to (snd (setupFanoutSubscription true b0 dx rq)) dx dq /\
            routes_to (snd (setupFanoutSubscription true b0 dx rq)) dx rq).
  { intros b0 rq Hr Hn.
    destruct (declarable_dec b0 dx rq) as [Hd | Hd]; [| exfalso; exact (fanout_err b0 dx rq Hd Hn)].
    rewrite (fanout_ok b0 dx rq Hd); cbn [snd].
    split; [apply (routes_to_mono b0); [apply subscribed_le, Hd | exact Hr] | apply subscribed_routes]. }
  destruct chan_ok.
  - destruct (declarable_dec b dx dq) as [Hd | Hd].
    + assert (Hb' : b' = subscribed b dx dq) by (rewrite Hs, fanout_ok by exact Hd; reflexivity).
      assert (Herr : err = None) by (apply Hf; rewrite fanout_ok by exact Hd; reflexivity).
      split; [split; [intros _; split; [reflexivity | exact Hd] | intros _; exact Herr] |].
      assert (Hr : routes_to b' dx dq) by (rewrite Hb'; apply subscribed_routes).
      split; [intros _; split; [exact Hr |] |].
      * destruct (durable_topology_as_fanout true b' baseName) as [Hs' Hf'].
        fold dx dq in Hs', Hf'. rewrite Hb', fanout_ok in Hs', Hf' by apply subscribed_declarable.
        rewrite subscribed_idem in Hs'. cbn [fst snd] in Hs', Hf'.
        rewrite Hb'; destruct (SetupDurableTopology true (subscribed b dx dq) baseName) as [e2 b2].
        cbn [fst snd] in Hs', Hf'. rewrite Hs', (proj2 Hf' eq_refl). reflexivity.
      * split; [intros ex' q'; apply routes_to_mono, Hle |].
        intros _ rq; apply Hsub, Hr.
    + assert (Herr : err <> None) by (intros H; apply Hf in H; exact (fanout_err b dx dq Hd H)).
      split; [split; [intros H; contradiction | intros [_ H]; contradiction] |].
      split; [intros H; contradiction |].
      split; [intros ex' q'; apply routes_to_mono, Hle | intros H; contradiction].
  - assert (Herr : err <> None).
    { unfold SetupDurableTopology in Et; cbn [negb] in Et; injection Et as <- _; discriminate. }
    split; [split; [intros H; contradiction | intros [H _]; discriminate] |].
    split; [intros H; contradiction |].
    split; [intros ex' q'; apply routes_to_mono, Hle | intros H; contradiction].
Qed.

(** X3: the route worker settles each delivery exactly once: [route_one]
    emits exactly one ack, nack or requeue, and over a batch
    [routeMessageLoop] emits as many settlements as there were deliveries. *)
Theorem route_worker_settles_once env routeID :
  (forall d, settles (route_one env routeID d)) /\
  (forall ds, length (List.filter is_settle (routeMessageLoop env routeID ds)) = length ds).
Proof.
  split; [exact (route_one_settles env routeID) | exact (route_loop_settles_each env routeID)].
Qed.
